(** * A model of the UI state machine, slider, transitions, glyph atlas and
    initialisation paths of PyEngine's [ui_stuff/window_gui.py] (with the
    sibling scripts for the initialisation paths).

    Python floats are modelled by exact rationals [Q]; Python ints by [Z].
    Strings (the [scene] tag) are kept as strings, as the source has them. *)

From Stdlib Require Import QArith Qminmax Qabs Lqa ZArith Lia String Ascii List Bool.
Import ListNotations.
Open Scope Q_scope.

(* ------------------------------------------------------------------ *)
(** ** Easing utilities (window_gui.py, lines 32-33) *)

(** Python's [min(a, b)] keeps its first argument unless a later one is
    strictly smaller; [max(a, b)] keeps its first argument unless a later
    one is strictly greater. *)
Definition py_min (a b : Q) : Q := if Qlt_le_dec b a then b else a.
Definition py_max (a b : Q) : Q := if Qlt_le_dec a b then b else a.

(** Python's [a < b] on floats. *)
Definition qlt (a b : Q) : bool := if Qlt_le_dec a b then true else false.

(** [def lerp(a, b, t): return a + (b - a) * t] *)
Definition lerp (a b t : Q) : Q := a + (b - a) * t.

(** [def clamp(x, a, b): return max(a, min(b, x))] *)
Definition clamp (x a b : Q) : Q := py_max a (py_min b x).

(* ------------------------------------------------------------------ *)
(** ** FocusableSlider (lines 288-297) *)

Record FocusableSlider := mkSlider {
  s_cx : Q; s_cy : Q; s_w : Q; s_h : Q;
  minv : Q; maxv : Q; value : Q; s_label : string;
  dragging : bool;
  s_focused : bool;
  s_visible : bool;
  s_enabled : bool
}.

(** [def normalized(self): return (self.value - self.minv) / (self.maxv - self.minv)] *)
Definition normalized (s : FocusableSlider) : Q :=
  (value s - minv s) / (maxv s - minv s).

(** [def set_from_norm(self, t):
       self.value = self.minv + clamp(t, 0.0, 1.0) * (self.maxv - self.minv)] *)
Definition set_from_norm (s : FocusableSlider) (t : Q) : FocusableSlider :=
  {| s_cx := s_cx s; s_cy := s_cy s; s_w := s_w s; s_h := s_h s;
     minv := minv s; maxv := maxv s;
     value := minv s + clamp t 0 1 * (maxv s - minv s);
     s_label := s_label s; dragging := dragging s; s_focused := s_focused s;
     s_visible := s_visible s; s_enabled := s_enabled s |}.

Definition set_dragging (s : FocusableSlider) (b : bool) : FocusableSlider :=
  {| s_cx := s_cx s; s_cy := s_cy s; s_w := s_w s; s_h := s_h s;
     minv := minv s; maxv := maxv s; value := value s;
     s_label := s_label s; dragging := b; s_focused := s_focused s;
     s_visible := s_visible s; s_enabled := s_enabled s |}.

Definition set_s_focused (s : FocusableSlider) (b : bool) : FocusableSlider :=
  {| s_cx := s_cx s; s_cy := s_cy s; s_w := s_w s; s_h := s_h s;
     minv := minv s; maxv := maxv s; value := value s;
     s_label := s_label s; dragging := dragging s; s_focused := b;
     s_visible := s_visible s; s_enabled := s_enabled s |}.

(** [def contains(self, nx, ny)] of both dataclasses. *)
Definition rect_contains (cx cy w h nx ny : Q) : bool :=
  Qle_bool (cx - w / 2) nx && Qle_bool nx (cx + w / 2) &&
  Qle_bool (cy - h / 2) ny && Qle_bool ny (cy + h / 2).

Definition slider_contains (s : FocusableSlider) (nx ny : Q) : bool :=
  rect_contains (s_cx s) (s_cy s) (s_w s) (s_h s) nx ny.

(** [s_scale] and [s_speed] as built in [GameFullUI.__init__] (lines 373-374). *)
Definition init_s_scale : FocusableSlider :=
  mkSlider 0.0 0.10 0.7 0.10 0.2 3.0 1.0 "Triangle scale" false false true true.
Definition init_s_speed : FocusableSlider :=
  mkSlider 0.0 (-0.10) 0.7 0.10 0.1 3.0 1.0 "Triangle speed" false false true true.

(* ------------------------------------------------------------------ *)
(** ** FocusableButton (lines 279-286) *)

(** The lambdas bound to buttons: each calls one action of [GameFullUI]. *)
Inductive ButtonAction :=
| DoStartGame | DoToggleOptions | DoQuitGame | DoResumeFromPause
| DoGotoMenu | DoOpenPause.

Record FocusableButton := mkButton {
  cx : Q; cy : Q; w : Q; h : Q; label : string; action : ButtonAction;
  hover : bool;
  focused : bool;
  visible : bool;
  enabled : bool
}.

Definition button_contains (b : FocusableButton) (nx ny : Q) : bool :=
  rect_contains (cx b) (cy b) (w b) (h b) nx ny.

Definition set_focused (b : FocusableButton) (v : bool) : FocusableButton :=
  {| cx := cx b; cy := cy b; w := w b; h := h b; label := label b;
     action := action b; hover := hover b; focused := v;
     visible := visible b; enabled := enabled b |}.

Definition button (x y bw bh : Q) (l : string) (a : ButtonAction) : FocusableButton :=
  mkButton x y bw bh l a false false true true.

(* ------------------------------------------------------------------ *)
(** ** GameFullUI state (lines 300-409)

    The buttons and sliders built in [__init__] are shared objects: the
    home and menu lists hold the very same three buttons, and the focus
    list holds references to them.  They live in a [Store]; the focus list
    holds [Ref]s into it.  The two HUD buttons of [build_focus_list] are
    fresh objects referenced from the focus list only, so they are kept
    inline ([RFresh]). *)

Record Store := mkStore {
  start_btn : FocusableButton; options_btn : FocusableButton;
  quit_btn : FocusableButton; resume_btn : FocusableButton;
  p_options_btn : FocusableButton; main_btn : FocusableButton;
  p_quit_btn : FocusableButton;
  s_scale : FocusableSlider; s_speed : FocusableSlider
}.

Inductive Ref :=
| RStart | ROptions | RQuit | RResume | RPOptions | RMain | RPQuit
| RScale | RSpeed
| RFresh (b : FocusableButton).

(** The object a reference denotes: a button or a slider. *)
Inductive Obj := OButton (b : FocusableButton) | OSlider (s : FocusableSlider).

Definition deref (st : Store) (r : Ref) : Obj :=
  match r with
  | RStart => OButton (start_btn st) | ROptions => OButton (options_btn st)
  | RQuit => OButton (quit_btn st) | RResume => OButton (resume_btn st)
  | RPOptions => OButton (p_options_btn st) | RMain => OButton (main_btn st)
  | RPQuit => OButton (p_quit_btn st)
  | RScale => OSlider (s_scale st) | RSpeed => OSlider (s_speed st)
  | RFresh b => OButton b
  end.

(** Apply an in-place update to the stored object a reference denotes. *)
Definition store_update (r : Ref) (fb : FocusableButton -> FocusableButton)
    (fs : FocusableSlider -> FocusableSlider) (st : Store) : Store :=
  let bt r' b := if match r, r' with
                    | RStart, RStart | ROptions, ROptions | RQuit, RQuit
                    | RResume, RResume | RPOptions, RPOptions | RMain, RMain
                    | RPQuit, RPQuit => true
                    | _, _ => false end then fb b else b in
  {| start_btn := bt RStart (start_btn st);
     options_btn := bt ROptions (options_btn st);
     quit_btn := bt RQuit (quit_btn st);
     resume_btn := bt RResume (resume_btn st);
     p_options_btn := bt RPOptions (p_options_btn st);
     main_btn := bt RMain (main_btn st);
     p_quit_btn := bt RPQuit (p_quit_btn st);
     s_scale := match r with RScale => fs (s_scale st) | _ => s_scale st end;
     s_speed := match r with RSpeed => fs (s_speed st) | _ => s_speed st end |}.

Record Flags := mkFlags {
  scene : string;            (** "home" / "menu" / "playing" *)
  show_options : bool;
  paused : bool;
  pause_menu_open : bool;
  should_close : bool        (** glfw.set_window_should_close *)
}.

Record Focus := mkFocus {
  focus_list : list Ref;
  focus_index : Z;
  nav_last : Q;
  joy_present : bool;
  gamepad_nav_last : Q
}.

Record Trans := mkTrans {
  home_alpha : Q; menu_alpha : Q; pause_alpha : Q; options_slide : Q;
  last_time : Q
}.

Record UI := mkUI { flags : Flags; store : Store; focus : Focus; trans : Trans }.

(** [self.nav_repeat_delay = 0.25] and [self.gamepad_nav_repeat = 0.25]:
    assigned in [__init__] only. *)
Definition nav_repeat_delay : Q := 0.25.
Definition gamepad_nav_repeat : Q := 0.25.

Definition set_flags (u : UI) (f : Flags) : UI := mkUI f (store u) (focus u) (trans u).
Definition set_store (u : UI) (s : Store) : UI := mkUI (flags u) s (focus u) (trans u).
Definition set_focus (u : UI) (f : Focus) : UI := mkUI (flags u) (store u) f (trans u).
Definition set_trans (u : UI) (t : Trans) : UI := mkUI (flags u) (store u) (focus u) t.

(** [__init__] with a start time [t0] ([self.last_time = time.time()]). *)
Definition init_store : Store := {|
  start_btn := button 0.0 0.28 1.0 0.24 "Start" DoStartGame;
  options_btn := button 0.0 (-0.02) 1.0 0.24 "Options" DoToggleOptions;
  quit_btn := button 0.0 (-0.36) 1.0 0.24 "Quit" DoQuitGame;
  resume_btn := button 0.0 0.18 0.6 0.18 "Resume" DoResumeFromPause;
  p_options_btn := button 0.0 (-0.02) 0.6 0.18 "Options" DoToggleOptions;
  main_btn := button 0.0 (-0.22) 0.6 0.18 "Main Menu" DoGotoMenu;
  p_quit_btn := button 0.0 (-0.42) 0.6 0.18 "Quit" DoQuitGame;
  s_scale := init_s_scale; s_speed := init_s_speed |}.

Definition init_ui (t0 : Q) : UI := {|
  flags := mkFlags "home" false false false false;
  store := init_store;
  focus := mkFocus [] 0 0.0 false 0.0;
  trans := mkTrans 0.0 0.0 0.0 (-0.6) t0 |}.

(* ------------------------------------------------------------------ *)
(** ** Actions (lines 411-431, 545-546) *)

Definition start_game (u : UI) : UI :=
  let f := flags u in
  set_flags u (mkFlags "playing" (show_options f) false false (should_close f)).

Definition quit_game (u : UI) : UI :=
  let f := flags u in
  set_flags u (mkFlags (scene f) (show_options f) (paused f) (pause_menu_open f) true).

Definition goto_menu (u : UI) : UI :=
  let f := flags u in
  set_flags u (mkFlags "menu" false false false (should_close f)).

Definition resume_from_pause (u : UI) : UI :=
  let f := flags u in
  set_flags u (mkFlags (scene f) (show_options f) false false (should_close f)).

Definition toggle_options (u : UI) : UI :=
  let f := flags u in
  set_flags u (mkFlags (scene f) (negb (show_options f)) (paused f)
                 (pause_menu_open f) (should_close f)).

Definition _open_pause (u : UI) : UI :=
  let f := flags u in
  set_flags u (mkFlags (scene f) (show_options f) true true (should_close f)).

Definition run_action (a : ButtonAction) (u : UI) : UI :=
  match a with
  | DoStartGame => start_game u
  | DoToggleOptions => toggle_options u
  | DoQuitGame => quit_game u
  | DoResumeFromPause => resume_from_pause u
  | DoGotoMenu => goto_menu u
  | DoOpenPause => _open_pause u
  end.

(* ------------------------------------------------------------------ *)
(** ** Focus and navigation (lines 513-582) *)

Definition home_buttons := [RStart; ROptions; RQuit].
Definition menu_buttons := [RStart; ROptions; RQuit].
Definition pause_buttons := [RResume; RPOptions; RMain; RPQuit].
Definition options_sliders := [RScale; RSpeed].

Definition hud_pause := button (-0.9) 0.85 0.12 0.08 "Pause" DoOpenPause.
Definition hud_menu := button (-0.74) 0.85 0.22 0.08 "MainMenu" DoGotoMenu.

(** The list [lst] that [build_focus_list] builds. *)
Definition visible_controls (f : Flags) : list Ref :=
  if String.eqb (scene f) "home" then
    if show_options f then options_sliders else home_buttons
  else if String.eqb (scene f) "menu" then
    if show_options f then options_sliders else menu_buttons
  else if String.eqb (scene f) "playing" then
    if pause_menu_open f then
      if show_options f then options_sliders else pause_buttons
    else [RFresh hud_pause; RFresh hud_menu]
  else [].

(** [clamp] on Python ints: [max(a, min(b, x))]. *)
Definition clampZ (x a b : Z) : Z := Z.max a (Z.min b x).

Definition build_focus_list (u : UI) : UI :=
  let lst := visible_controls (flags u) in
  let fo := focus u in
  let idx := match lst with
             | [] => (-1)%Z
             | _ => clampZ (focus_index fo) 0 (Z.of_nat (length lst) - 1)
             end in
  set_focus u (mkFocus lst idx (nav_last fo) (joy_present fo) (gamepad_nav_last fo)).

(** [for i, f in enumerate(self.focus_list): f.focused = (i == self.focus_index)]:
    the stored objects are updated in place; fresh HUD buttons in the list. *)
Fixpoint mark_focused (i idx : Z) (l : list Ref) (st : Store) : list Ref * Store :=
  match l with
  | [] => ([], st)
  | r :: l' =>
      let v := Z.eqb i idx in
      let st1 := store_update r (fun b => set_focused b v)
                   (fun s => set_s_focused s v) st in
      let r' := match r with RFresh b => RFresh (set_focused b v) | _ => r end in
      let '(l'', st2) := mark_focused (i + 1) idx l' st1 in
      (r' :: l'', st2)
  end.

(** [move_focus(delta)]; [tnow] is the value of [time.time()] it reads. *)
Definition move_focus (delta : Z) (tnow : Q) (u : UI) : UI :=
  let u1 := build_focus_list u in
  let fo := focus u1 in
  match focus_list fo with
  | [] => u1
  | lst =>
      if Qlt_le_dec (tnow - nav_last fo) nav_repeat_delay then u1
      else
        let idx := Z.modulo (focus_index fo + delta) (Z.of_nat (length lst)) in
        let '(lst', st') := mark_focused 0 idx lst (store u1) in
        mkUI (flags u1) st'
             (mkFocus lst' idx tnow (joy_present fo) (gamepad_nav_last fo))
             (trans u1)
  end.

Definition focused_ref (u : UI) : option Ref :=
  let fo := focus u in
  match focus_list fo with
  | [] => None
  | lst => if Z.ltb (focus_index fo) 0 then None
           else nth_error lst (Z.to_nat (focus_index fo))
  end.

Definition activate_focused (u : UI) : UI :=
  let u1 := build_focus_list u in
  match focused_ref u1 with
  | None => u1
  | Some r =>
      match deref (store u1) r with
      | OButton b => run_action (action b) u1
      | OSlider _ =>
          set_store u1 (store_update r (fun b => b)
                          (fun s => set_dragging s (negb (dragging s))) (store u1))
      end
  end.

Definition adjust_slider (delta_norm : Q) (u : UI) : UI :=
  let u1 := build_focus_list u in
  match focused_ref u1 with
  | None => u1
  | Some r =>
      match deref (store u1) r with
      | OButton _ => u1
      | OSlider _ =>
          set_store u1 (store_update r (fun b => b)
                          (fun s => set_from_norm s (normalized s + delta_norm))
                          (store u1))
      end
  end.

(* ------------------------------------------------------------------ *)
(** ** Input handlers (lines 443-510) *)

Definition obj_contains (o : Obj) (nx ny : Q) : bool :=
  match o with
  | OButton b => button_contains b nx ny
  | OSlider s => slider_contains s nx ny
  end.

(** The first control of a [for] loop whose [contains] test succeeds. *)
Fixpoint first_hit (st : Store) (nx ny : Q) (l : list Ref) : option Ref :=
  match l with
  | [] => None
  | r :: l' => if obj_contains (deref st r) nx ny then Some r else first_hit st nx ny l'
  end.

Definition click_button (r : Ref) (u : UI) : UI :=
  match deref (store u) r with
  | OButton b => run_action (action b) u
  | OSlider _ => u
  end.

Definition MOUSE_BUTTON_LEFT : Z := 0.

(** [on_mouse]; the event carries the cursor position already mapped by
    [window_coords_to_ndc].  The handler does not look at [action]. *)
Definition on_mouse (btn : Z) (nx ny : Q) (u : UI) : UI :=
  if negb (Z.eqb btn MOUSE_BUTTON_LEFT) then u else
  let f := flags u in
  if String.eqb (scene f) "home" || String.eqb (scene f) "menu" then
    let btns := if String.eqb (scene f) "home" then home_buttons else menu_buttons in
    if show_options f then
      match first_hit (store u) nx ny options_sliders with
      | Some r =>
          let st := store_update r (fun b => b)
                      (fun s => set_s_focused (set_dragging s true) true) (store u) in
          let fo := focus u in
          mkUI f st (mkFocus [r] 0 (nav_last fo) (joy_present fo) (gamepad_nav_last fo))
               (trans u)
      | None => u
      end
    else
      match first_hit (store u) nx ny btns with
      | Some r => click_button r u
      | None => u
      end
  else if String.eqb (scene f) "playing" then
    let if_pause := rect_contains (-0.9) 0.85 0.12 0.08 nx ny in
    match (if pause_menu_open f then first_hit (store u) nx ny pause_buttons else None) with
    | Some r => click_button r u
    | None =>
        if if_pause then
          set_flags u (mkFlags (scene f) (show_options f) true true (should_close f))
        else u
    end
  else u.

Inductive KeyAct := PRESS | RELEASE | REPEAT.

Inductive Key :=
| KEY_ESCAPE | KEY_ENTER | KEY_KP_ENTER | KEY_TAB | KEY_UP | KEY_DOWN
| KEY_LEFT | KEY_RIGHT | KEY_O | KEY_P | KEY_Q | KEY_OTHER.

Definition toggle_pause (u : UI) : UI :=
  let f := flags u in
  let p := negb (paused f) in
  set_flags u (mkFlags (scene f) (show_options f) p p (should_close f)).

Definition close_window (u : UI) : UI :=
  let f := flags u in
  set_flags u (mkFlags (scene f) (show_options f) (paused f) (pause_menu_open f) true).

(** [on_key]; [tnow] is the time [move_focus] reads. *)
Definition on_key (key : Key) (act : KeyAct) (tnow : Q) (u : UI) : UI :=
  match act with
  | RELEASE | REPEAT => u
  | PRESS =>
      match key with
      | KEY_ESCAPE =>
          if String.eqb (scene (flags u)) "playing" then toggle_pause u
          else close_window u
      | KEY_ENTER | KEY_KP_ENTER => activate_focused u
      | KEY_TAB => move_focus 1 tnow u
      | KEY_UP => move_focus (-1) tnow u
      | KEY_DOWN => move_focus 1 tnow u
      | KEY_LEFT => adjust_slider (-0.02) u
      | KEY_RIGHT => adjust_slider 0.02 u
      | KEY_O => toggle_options u
      | KEY_P => if String.eqb (scene (flags u)) "playing" then toggle_pause u else u
      | KEY_Q => close_window u
      | KEY_OTHER => u
      end
  end.

(* ------------------------------------------------------------------ *)
(** ** Gamepad polling (lines 585-620)

    [present]: some joystick is present; [axes] and [buttons] what glfw
    returns for it ([true] = PRESS); [now] the time every [time.time()]
    call of the poll reads. *)

Definition set_gamepad_nav_last (t : Q) (u : UI) : UI :=
  let fo := focus u in
  set_focus u (mkFocus (focus_list fo) (focus_index fo) (nav_last fo) (joy_present fo) t).

Definition set_nav_last (t : Q) (u : UI) : UI :=
  let fo := focus u in
  set_focus u (mkFocus (focus_list fo) (focus_index fo) t (joy_present fo) (gamepad_nav_last fo)).

Definition set_joy_present (u : UI) : UI :=
  let fo := focus u in
  set_focus u (mkFocus (focus_list fo) (focus_index fo) (nav_last fo) true (gamepad_nav_last fo)).

Definition poll_axes (axes : list Q) (now : Q) (u : UI) : UI :=
  match axes with
  | [] => u
  | _ =>
      let ax := nth 0 axes 0 in
      let ay := nth 1 axes 0 in
      if qlt (1 # 2) (Qabs ax) || qlt (1 # 2) (Qabs ay) then
        if Qlt_le_dec gamepad_nav_repeat (now - gamepad_nav_last (focus u)) then
          let u1 :=
            if Qlt_le_dec ay (-(1 # 2)) then move_focus (-1) now u
            else if Qlt_le_dec (1 # 2) ay then move_focus 1 now u
            else if Qlt_le_dec ax (-(1 # 2)) then adjust_slider (-0.02) u
            else if Qlt_le_dec (1 # 2) ax then adjust_slider 0.02 u
            else u in
          set_gamepad_nav_last now u1
        else u
      else u
  end.

Definition poll_gamepad (present : bool) (axes : list Q) (buttons : list bool)
    (now : Q) (u : UI) : UI :=
  let u0 := if present then set_joy_present u else u in
  if negb (joy_present (focus u0)) then u0 else
  let u1 := poll_axes axes now u0 in
  match buttons with
  | true :: _ =>
      if Qlt_le_dec (1 # 5) (now - nav_last (focus u1))
      then set_nav_last now (activate_focused u1)
      else u1
  | _ => u1
  end.

(* ------------------------------------------------------------------ *)
(** ** One iteration of the main loop (lines 673-716)

    The loop body is split in two at [glfw.poll_events()], where the key and
    mouse callbacks run: [frame_begin] is the part before it, [frame_drag]
    the slider-dragging part after it. *)

(** Lines 689-697: the transition values. *)
Definition transitions (dt : Q) (f : Flags) (t : Trans) : Trans :=
  let target_home := if String.eqb (scene f) "home" then 1 else 0 in
  let target_menu := if String.eqb (scene f) "menu" then 1 else 0 in
  let target_pause := if pause_menu_open f then 1 else 0 in
  let target_slide := if show_options f then 0 else -0.6 in
  {| home_alpha := lerp (home_alpha t) target_home (clamp (dt * 6.0) 0 1);
     menu_alpha := lerp (menu_alpha t) target_menu (clamp (dt * 6.0) 0 1);
     pause_alpha := lerp (pause_alpha t) target_pause (clamp (dt * 8.0) 0 1);
     options_slide := lerp (options_slide t) target_slide (clamp (dt * 8.0) 0 1);
     last_time := last_time t |}.

Definition frame_begin (now : Q) (present : bool) (axes : list Q) (buttons : list bool)
    (u : UI) : UI :=
  let t := trans u in
  let dt := if Qeq_bool (last_time t) 0 then 0 else now - last_time t in
  let u0 := set_trans u (mkTrans (home_alpha t) (menu_alpha t) (pause_alpha t)
                                 (options_slide t) now) in
  let u1 := build_focus_list (poll_gamepad present axes buttons now u0) in
  set_trans u1 (transitions dt (flags u1) (trans u1)).

Definition drag_slider (nx : Q) (s : FocusableSlider) : FocusableSlider :=
  if s_visible s && dragging s then
    let left := s_cx s - s_w s / 2 in
    let right := s_cx s + s_w s / 2 in
    set_from_norm s ((nx - left) / (right - left))
  else s.

(** [mb_left]: the left button is pressed; [nx]: the cursor in NDC. *)
Definition frame_drag (mb_left : bool) (nx : Q) (u : UI) : UI :=
  let f := if mb_left then drag_slider nx else fun s => set_dragging s false in
  set_store u (store_update RSpeed (fun b => b) f
                 (store_update RScale (fun b => b) f (store u))).

(* ------------------------------------------------------------------ *)
(** ** Events and reachable states *)

Inductive Event :=
| EvKey (key : Key) (act : KeyAct) (tnow : Q)
| EvMouse (btn : Z) (nx ny : Q)
| EvFrameBegin (now : Q) (present : bool) (axes : list Q) (buttons : list bool)
| EvFrameDrag (mb_left : bool) (nx : Q)
| EvResize.   (** [on_resize] only touches the window size *)

Definition step (u : UI) (e : Event) : UI :=
  match e with
  | EvKey k a t => on_key k a t u
  | EvMouse b nx ny => on_mouse b nx ny u
  | EvFrameBegin now p ax bs => frame_begin now p ax bs u
  | EvFrameDrag m nx => frame_drag m nx u
  | EvResize => u
  end.

Definition run_events (u : UI) (es : list Event) : UI := fold_left step es u.

(** States reachable from [__init__] by handled events, and also by calling
    any action directly. *)
Inductive reachable : UI -> Prop :=
| reach_init t0 : reachable (init_ui t0)
| reach_event u e : reachable u -> reachable (step u e)
| reach_action u a : reachable u -> reachable (run_action a u).

(* ------------------------------------------------------------------ *)
(** ** GlyphAtlas._build_atlas (lines 138-194) *)

Module Atlas.
Local Open Scope Z_scope.

(** A Python dict with [d[k] = v] and [d.get(k)]: an association list in
    insertion order; assigning an existing key replaces its value in place. *)
Fixpoint dict_set {V : Type} (k : ascii) (v : V) (d : list (ascii * V)) : list (ascii * V) :=
  match d with
  | [] => [(k, v)]
  | (k', v') :: d' => if Ascii.eqb k k' then (k, v) :: d' else (k', v') :: dict_set k v d'
  end.

Fixpoint dict_get {V : Type} (k : ascii) (d : list (ascii * V)) : option V :=
  match d with
  | [] => None
  | (k', v) :: d' => if Ascii.eqb k k' then Some v else dict_get k d'
  end.

(** A glyph image: its character and its [img.size]. *)
Record Img := mkImg { ich : ascii; iw : Z; ih : Z }.

(** [placements.append((ch, x, y, img))], kept with [img.width], [img.height]. *)
Record Placement := mkPlacement { pch : ascii; px : Z; py : Z; pw : Z; ph : Z }.

(** Measuring one character: [w, h = mask.size], zero sizes replaced by
    [font_size // 4] and [font_size // 2], then the padded image. *)
Definition measure (font_size padding : Z) (m : ascii * (Z * Z)) : Img :=
  let '(ch, (mw, mh)) := m in
  let w := if Z.eqb mw 0 then Z.div font_size 4 else mw in
  let h := if Z.eqb mh 0 then Z.div font_size 2 else mh in
  mkImg ch (w + padding * 2) (h + padding * 2).

(** The loop variables [x], [y], [row_h], [atlas_h] and [placements]. *)
Record Pack := mkPack { x : Z; y : Z; row_h : Z; atlas_h : Z; placements : list Placement }.

Definition pack_step (atlas_w : Z) (s : Pack) (img : Img) : Pack :=
  let s1 := if Z.ltb atlas_w (x s + iw img)
            then mkPack 0 (y s + row_h s) 0 (atlas_h s + row_h s) (placements s)
            else s in
  mkPack (x s1 + iw img) (y s1) (Z.max (row_h s1) (ih img)) (atlas_h s1)
         (placements s1 ++ [mkPlacement (ich img) (x s1) (y s1) (iw img) (ih img)]).

(** The packing loop and the final [atlas_h += row_h]. *)
Definition pack (atlas_w : Z) (imgs : list Img) : Z * list Placement :=
  let s := fold_left (pack_step atlas_w) imgs (mkPack 0 0 0 0 []) in
  (atlas_h s + row_h s, placements s).

Definition total_width (imgs : list Img) : Z := fold_left (fun t i => t + iw i) imgs 0.

(** [_build_atlas] up to the GL upload: the atlas size, the placements
    pasted and the [self.glyphs] dict. *)
Definition build_atlas (font_size padding : Z) (chars : list (ascii * (Z * Z))) :
    Z * Z * list Placement * list (ascii * (Z * Z * Z * Z)) :=
  let imgs := map (measure font_size padding) chars in
  let atlas_w := Z.min (total_width imgs) 2048 in
  let '(atlas_h, pls) := pack atlas_w imgs in
  let glyphs := fold_left (fun d p => dict_set (pch p) (px p, py p, pw p, ph p) d) pls [] in
  (atlas_w, atlas_h, pls, glyphs).

(** The rows of the spec: glyphs go left to right; a glyph starts a new
    row when appending it to the current one would exceed the width. *)
Fixpoint rows_acc (W : Z) (cur : list Img) (curw : Z) (l : list Img) : list (list Img) :=
  match l with
  | [] => [cur]
  | g :: l' =>
      if Z.ltb W (curw + iw g) then cur :: rows_acc W [g] (iw g) l'
      else rows_acc W (cur ++ [g]) (curw + iw g) l'
  end.

Definition rows_of (W : Z) (l : list Img) : list (list Img) := rows_acc W [] 0 l.

Definition row_height (r : list Img) : Z := fold_right (fun g m => Z.max (ih g) m) 0 r.

Definition sum_heights (rs : list (list Img)) : Z :=
  fold_right (fun r t => row_height r + t) 0 rs.

Definition overlap (p q : Placement) : Prop :=
  px p < px q + pw q /\ px q < px p + pw p /\ py p < py q + ph q /\ py q < py p + ph p.

End Atlas.

(** [GlyphAtlas] as [TextRenderer.draw_text] reads it, and the glyph loop of
    [draw_text] that builds the vertex list and moves the pen. *)
Module Text.

Record GlyphAtlas := mkGlyphAtlas {
  font_size : Z;
  glyphs : list (ascii * (Z * Z * Z * Z));
  tex : Z;
  tex_w : Z;
  tex_h : Z
}.

(** [return self.glyphs.get(ch, None)] *)
Definition get_glyph (a : GlyphAtlas) (ch : ascii) : option (Z * Z * Z * Z) :=
  Atlas.dict_get ch (glyphs a).

(** One iteration of [for ch in text], on the pair [(pen_x, verts)]. *)
Definition glyph_step (a : GlyphAtlas) (win_w win_h : Z) (pen_y alpha : Q)
    (st : Q * list Q) (ch : ascii) : Q * list Q :=
  let '(pen_x, verts) := st in
  match get_glyph a ch with
  | None =>
      let space_px := if Z.eqb (font_size a) 0 then 10%Z else font_size a in
      let ndc_advance := (inject_Z space_px / inject_Z win_w) * 2 in
      (pen_x + ndc_advance, verts)
  | Some (gx, gy, gw, gh) =>
      let ndc_w := (inject_Z gw / inject_Z win_w) * 2 in
      let ndc_h := (inject_Z gh / inject_Z win_h) * 2 in
      let left := pen_x in
      let right := pen_x + ndc_w in
      let top := pen_y in
      let bottom := pen_y - ndc_h in
      let uv_left := inject_Z gx / inject_Z (tex_w a) in
      let uv_top := inject_Z gy / inject_Z (tex_h a) in
      let uv_right := inject_Z (gx + gw) / inject_Z (tex_w a) in
      let uv_bottom := inject_Z (gy + gh) / inject_Z (tex_h a) in
      let verts := verts ++ [left; bottom; uv_left; uv_bottom; alpha] in
      let verts := verts ++ [right; bottom; uv_right; uv_bottom; alpha] in
      let verts := verts ++ [right; top; uv_right; uv_top; alpha] in
      let verts := verts ++ [left; bottom; uv_left; uv_bottom; alpha] in
      let verts := verts ++ [right; top; uv_right; uv_top; alpha] in
      let verts := verts ++ [left; top; uv_left; uv_top; alpha] in
      (pen_x + ndc_w, verts)
  end.

(** The vertex building part of [draw_text]: [None] when it returns early
    ([not USE_PIL or self.atlas.tex == 0]), otherwise the final pen and the
    vertex list handed to [glBufferData]. *)
Definition draw_text (USE_PIL : bool) (a : GlyphAtlas) (win_w win_h : Z)
    (text : list ascii) (left_ndc top_ndc alpha : Q) : option (Q * list Q) :=
  if negb USE_PIL || Z.eqb (tex a) 0 then None
  else Some (fold_left (glyph_step a win_w win_h top_ndc alpha) text (left_ndc, [])).

(** The advance the spec text gives each character: [font_size] pixels (10
    when [font_size] is 0) for a character outside the atlas, the glyph's own
    width otherwise, converted to NDC by [px / win_w * 2]. *)
Definition spec_advance (a : GlyphAtlas) (win_w : Z) (ch : ascii) : Q :=
  match get_glyph a ch with
  | None => (inject_Z (if Z.eqb (font_size a) 0 then 10%Z else font_size a) / inject_Z win_w) * 2
  | Some (_, _, gw, _) => (inject_Z gw / inject_Z win_w) * 2
  end.

Definition in_atlas (a : GlyphAtlas) (ch : ascii) : bool :=
  match get_glyph a ch with Some _ => true | None => false end.

End Text.

(** Initialisation paths of the UI scripts, over the outcome of each
    platform call ([glfw.init()], [glfw.create_window], the two
    [GL_COMPILE_STATUS] queries and the [GL_LINK_STATUS] query). *)
Module Init.
Local Open Scope string_scope.

Record GlEnv := mkGlEnv {
  glfw_init_ok : bool;
  window_ok : bool;
  vs_compile_ok : bool;
  fs_compile_ok : bool;
  link_ok : bool
}.

(** How the constructor ends: an exception, [sys.exit(code)], or a constructed
    object that goes on to the main loop, with what was printed. *)
Inductive Outcome :=
| Raised (msg : string)
| Exited (code : Z) (printed : list string)
| Running (linked : bool) (printed : list string).

Definition fatal (o : Outcome) : bool :=
  match o with Raised _ | Exited _ _ => true | Running _ _ => false end.

(** [window_gui.compile_program]: raises on the first failed status. *)
Definition compile_program (e : GlEnv) : option string :=
  if negb (vs_compile_ok e) then Some "vertex shader info log"%string
  else if negb (fs_compile_ok e) then Some "fragment shader info log"%string
  else if negb (link_ok e) then Some "program info log"%string
  else None.

(** [window_gui.GameWindow.__init__] up to its two [compile_program] calls. *)
Definition window_gui_init (e : GlEnv) : Outcome :=
  if negb (glfw_init_ok e) then Raised "glfw.init failed"
  else if negb (window_ok e) then Raised "Failed to create window"
  else match compile_program e with
       | Some log => Raised log
       | None =>
           match compile_program e with
           | Some log => Raised log
           | None => Running true []
           end
       end.

(** [demo_gui.compile_shader]: prints the info log on failure and returns
    [(sh, bool(status))]. *)
Definition compile_shader (ok : bool) (log : string) (printed : list string) : list string * bool :=
  if ok then (printed, true) else (app printed [log], false).

(** [demo_gui.GameFullUI.__init__]: [self.linked] is stored and construction
    goes on whatever the shader statuses were. *)
Definition demo_gui_init (e : GlEnv) : Outcome :=
  if negb (glfw_init_ok e) then Raised "glfw.init failed"
  else if negb (window_ok e) then Raised "Failed to create window"
  else
    let '(pr, ok_vs) := compile_shader (vs_compile_ok e) "vertex shader info log" [] in
    let '(pr, ok_fs) := compile_shader (fs_compile_ok e) "fragment shader info log" pr in
    let linked := link_ok e in
    Running linked pr.

(** [ui_debug_test.py]: prints and calls [sys.exit(1)] on every failure. *)
Definition ui_debug_test_init (e : GlEnv) : Outcome :=
  if negb (glfw_init_ok e) then Exited 1 ["glfw.init failed"]
  else if negb (window_ok e) then Exited 1 ["create_window failed"]
  else if vs_compile_ok e && fs_compile_ok e && link_ok e then Running true []
  else Exited 1 ["Shader build failed"].

End Init.

(* ------------------------------------------------------------------ *)
(** ** Easing, coordinates and drawing helpers of [GameFullUI]
    (lines 32-35, 438-441, 636-669, 731-764) *)

(** [def smoothstep(x): return x * x * (3 - 2 * x)] *)
Definition smoothstep (x : Q) : Q := x * x * (3 - 2 * x).

(** [def ease_out_cubic(x): return 1 - pow(1 - x, 3)] *)
Definition ease_out_cubic (x : Q) : Q := 1 - (1 - x) * (1 - x) * (1 - x).

(** [title_y = lerp(0.62+0.2, 0.62, smoothstep(alpha))] with
    [alpha = self.home_alpha]. *)
Definition title_y (alpha : Q) : Q := lerp (0.62 + 0.2) 0.62 (smoothstep alpha).

(** [panel_y = lerp(-0.48, 0.04, ease_out_cubic(clamp((self.options_slide + 0.6) / 0.6, 0.0, 1.0)))] *)
Definition panel_y (options_slide : Q) : Q :=
  lerp (-0.48) 0.04 (ease_out_cubic (clamp ((options_slide + 0.6) / 0.6) 0 1)).

(** The knob of a slider in the home options panel:
    [left = s.cx - s.w/2; right = s.cx + s.w/2; kx = left + tnorm * (right - left)]. *)
Definition knob_x (s : FocusableSlider) : Q :=
  let left := s_cx s - s_w s / 2 in
  let right := s_cx s + s_w s / 2 in
  left + normalized s * (right - left).

(** [window_coords_to_ndc(mx, my)] with [self.w], [self.h] (ints set by
    [on_resize]); [None] is the [ZeroDivisionError] of a zero size. *)
Definition window_coords_to_ndc (w h : Z) (mx my : Q) : option (Q * Q) :=
  if Z.eqb w 0 then None
  else if Z.eqb h 0 then None
  else Some ((mx / inject_Z w) * 2 - 1, - ((my / inject_Z h) * 2 - 1)).

(** The [quad] array of [draw_rect]: six vertices of [pos.xy, uv.xy, alpha]. *)
Definition draw_rect_quad (cx cy w h alpha : Q) : list Q :=
  let left := cx - w / 2 in
  let right := cx + w / 2 in
  let top := cy + h / 2 in
  let bottom := cy - h / 2 in
  [left; bottom; 0; 1; alpha;
   right; bottom; 1; 1; alpha;
   right; top; 1; 0; alpha;
   left; bottom; 0; 1; alpha;
   right; top; 1; 0; alpha;
   left; top; 0; 0; alpha].

(** The [pos.xy] attribute of each vertex of a [pos.xy, uv.xy, alpha] array. *)
Fixpoint vertex_xy (l : list Q) : list (Q * Q) :=
  match l with
  | x0 :: y0 :: _ :: _ :: _ :: l' => (x0, y0) :: vertex_xy l'
  | _ => []
  end.

(* ------------------------------------------------------------------ *)
(** ** demo_gui.py: the fallback UI ([Button], [TextRenderer], [GameFullUI]) *)

Module Demo.
Local Open Scope string_scope.

Record Button := mkButton { x : Q; y : Q; w : Q; h : Q; label : string }.

(** [Button.contains]: the same closed rectangle test as [rect_contains]. *)
Definition contains (b : Button) (nx ny : Q) : bool :=
  rect_contains (x b) (y b) (w b) (h b) nx ny.

Definition home_buttons : list Button :=
  [mkButton 0 0.25 1.2 0.28 "Start";
   mkButton 0 (-0.05) 1.2 0.28 "Options";
   mkButton 0 (-0.35) 1.2 0.28 "Quit"].

Definition pause_buttons : list Button :=
  [mkButton 0 0.1 1.0 0.25 "Resume";
   mkButton 0 (-0.1) 1.0 0.25 "Options";
   mkButton 0 (-0.3) 1.0 0.25 "Main Menu"].

Record State := mkState {
  scene : string; paused : bool; show_options : bool; pause_menu_open : bool;
  should_close : bool   (** glfw.set_window_should_close *)
}.

(** [__init__]: [scene = "menu"], every flag [False]. *)
Definition init_state : State := mkState "menu" false false false false.

Definition start_game (s : State) : State :=
  mkState "playing" false (show_options s) false (should_close s).

Definition resume_from_pause (s : State) : State :=
  mkState (scene s) false (show_options s) false (should_close s).

Definition quit_game (s : State) : State :=
  mkState (scene s) (paused s) (show_options s) (pause_menu_open s) true.

Definition set_scene (v : string) (s : State) : State :=
  mkState v (paused s) (show_options s) (pause_menu_open s) (should_close s).

Definition set_show_options (v : bool) (s : State) : State :=
  mkState (scene s) (paused s) v (pause_menu_open s) (should_close s).

(** [_on_key]; [key is glfw.KEY_O] and [key is glfw.KEY_Q] compare small
    ints, which CPython shares, so they behave as [==]. *)
Definition on_key (key : Key) (act : KeyAct) (s : State) : State :=
  match act with
  | RELEASE | REPEAT => s
  | PRESS =>
      match key with
      | KEY_ESCAPE =>
          if String.eqb (scene s) "playing" && paused s then resume_from_pause s
          else if String.eqb (scene s) "playing" then set_scene "menu" s
          else quit_game s
      | KEY_ENTER | KEY_KP_ENTER =>
          if String.eqb (scene s) "menu" then start_game s else s
      | KEY_O => set_show_options (negb (show_options s)) s
      | KEY_Q => quit_game s
      | KEY_P =>
          if String.eqb (scene s) "playing" then
            let p := negb (paused s) in
            mkState (scene s) p (show_options s) p (should_close s)
          else s
      | _ => s
      end
  end.

(** The body of [for b in self.home_buttons] in [_on_mouse]. *)
Definition home_click (nx ny : Q) (s : State) (b : Button) : State :=
  if contains b nx ny then
    if String.eqb (label b) "Start" then start_game s
    else if String.eqb (label b) "Options" then set_show_options true s
    else if String.eqb (label b) "Quit" then quit_game s
    else s
  else s.

(** The body of [for b in self.pause_buttons] in [_on_mouse]. *)
Definition pause_click (nx ny : Q) (s : State) (b : Button) : State :=
  if contains b nx ny then
    if String.eqb (label b) "Resume" then resume_from_pause s
    else if String.eqb (label b) "Options" then set_show_options true s
    else if String.eqb (label b) "Main Menu" then
      mkState "menu" false (show_options s) false (should_close s)
    else s
  else s.

(** [_on_mouse]; the event carries the cursor already mapped to NDC.  Both
    loops run over the whole list: every button under the cursor acts. *)
Definition on_mouse (btn : Z) (act : KeyAct) (nx ny : Q) (s : State) : State :=
  match act with
  | PRESS =>
      if negb (Z.eqb btn MOUSE_BUTTON_LEFT) then s
      else if String.eqb (scene s) "menu" then fold_left (home_click nx ny) home_buttons s
      else if String.eqb (scene s) "playing" && pause_menu_open s then
        fold_left (pause_click nx ny) pause_buttons s
      else s
  | _ => s
  end.

Inductive reachable : State -> Prop :=
| reach_init : reachable init_state
| reach_key k a s : reachable s -> reachable (on_key k a s)
| reach_mouse b a nx ny s : reachable s -> reachable (on_mouse b a nx ny s).

(** [TextRenderer.cache]: a dict from text to [(tex, width, height)], and
    the number of textures [glGenTextures] has handed out; it hands out
    [gen + 1], a name not used before. *)
Record TexCache := mkTexCache { cache : list (string * (Z * Z * Z)); gen : Z }.

Fixpoint lookup {V : Type} (k : string) (d : list (string * V)) : option V :=
  match d with
  | [] => None
  | (k', v) :: d' => if String.eqb k k' then Some v else lookup k d'
  end.

(** [create_texture(text)]: every image is [Image.new("RGBA", (256, 64))]. *)
Definition create_texture (text : string) (tc : TexCache) : (Z * Z * Z) * TexCache :=
  match lookup text (cache tc) with
  | Some v => (v, tc)
  | None =>
      let tex := (gen tc + 1)%Z in
      let v := (tex, 256%Z, 64%Z) in
      (v, mkTexCache (cache tc ++ [(text, v)]) tex)
  end.

(** [draw_text(text, x, y, scale)]: the texture bound and the four
    [glVertex2f] corners of the quad. *)
Definition draw_text (text : string) (x0 y0 scale : Q) (tc : TexCache) :
    (Z * list (Q * Q)) * TexCache :=
  let '((tex, tw, th), tc') := create_texture text tc in
  let qw := inject_Z tw / 300 * scale in
  let qh := inject_Z th / 300 * scale in
  ((tex, [(x0, y0); (x0 + qw, y0); (x0 + qw, y0 + qh); (x0, y0 + qh)]), tc').

Fixpoint create_all (texts : list string) (tc : TexCache) : TexCache :=
  match texts with
  | [] => tc
  | t :: ts => create_all ts (snd (create_texture t tc))
  end.

End Demo.

(* ================================================================== *)
(** * Theorems *)

Lemma py_min_spec (a b : Q) : (b < a /\ py_min a b = b) \/ (a <= b /\ py_min a b = a).
Proof. unfold py_min; destruct (Qlt_le_dec b a); auto. Qed.

Lemma py_max_spec (a b : Q) : (a < b /\ py_max a b = b) \/ (b <= a /\ py_max a b = a).
Proof. unfold py_max; destruct (Qlt_le_dec a b); auto. Qed.

(** Case split on every Python [min]/[max] comparison in the goal. *)
Ltac py_cases :=
  unfold clamp in *;
  repeat match goal with
         | |- context [py_min ?a ?b] => destruct (py_min_spec a b) as [[? ->]|[? ->]]
         | |- context [py_max ?a ?b] => destruct (py_max_spec a b) as [[? ->]|[? ->]]
         end.

Lemma clamp_bounds (x : Q) : 0 <= clamp x 0 1 <= 1.
Proof. py_cases; lra. Qed.

Lemma clamp_id (x : Q) : 0 <= x <= 1 -> clamp x 0 1 == x.
Proof. intros; py_cases; lra. Qed.

Lemma clamp_max_min (x : Q) : clamp x 0 1 == Qmax 0 (Qmin 1 x).
Proof.
  destruct (Q.min_spec 1 x) as [[? ->]|[? ->]];
  [destruct (Q.max_spec 0 1) as [[? ->]|[? ->]]
  |destruct (Q.max_spec 0 x) as [[? ->]|[? ->]]];
  py_cases; lra.
Qed.

(* ------------------------------------------------------------------ *)
(** ** Flags are written only by the actions, the pause toggle and the
    close request *)

Lemma build_focus_list_flags (u : UI) : flags (build_focus_list u) = flags u.
Proof. reflexivity. Qed.

Lemma move_focus_flags (d : Z) (t : Q) (u : UI) : flags (move_focus d t u) = flags u.
Proof.
  unfold move_focus.
  destruct (focus_list (focus (build_focus_list u))); [reflexivity|].
  destruct (Qlt_le_dec _ _); [reflexivity|].
  destruct (mark_focused _ _ _ _); reflexivity.
Qed.

Lemma adjust_slider_flags (d : Q) (u : UI) : flags (adjust_slider d u) = flags u.
Proof.
  unfold adjust_slider.
  destruct (focused_ref _) as [r|]; [|reflexivity].
  destruct (deref _ r); reflexivity.
Qed.

Lemma frame_drag_flags (m : bool) (nx : Q) (u : UI) : flags (frame_drag m nx u) = flags u.
Proof. reflexivity. Qed.

Section FlagInvariant.
Variable P : Flags -> Prop.
Hypothesis P_action : forall a u, P (flags u) -> P (flags (run_action a u)).
Hypothesis P_toggle_pause : forall u, P (flags u) -> P (flags (toggle_pause u)).
Hypothesis P_close : forall u, P (flags u) -> P (flags (close_window u)).

Lemma activate_focused_P (u : UI) : P (flags u) -> P (flags (activate_focused u)).
  Proof.
    intros H; unfold activate_focused.
    destruct (focused_ref _) as [r|]; [|exact H].
    destruct (deref _ r); [apply P_action|]; exact H.
  Qed.

Lemma poll_gamepad_P (p : bool) (ax : list Q) (bs : list bool) (now : Q) (u : UI) :
    P (flags u) -> P (flags (poll_gamepad p ax bs now u)).
  Proof.
    intros H.
    assert (H0 : P (flags (if p then set_joy_present u else u))) by (destruct p; exact H).
    unfold poll_gamepad.
    set (u0 := if p then set_joy_present u else u) in *.
    destruct (negb _); [exact H0|].
    assert (H1 : P (flags (poll_axes ax now u0))).
    { unfold poll_axes. destruct ax as [|a ax']; [exact H0|].
      destruct (_ || _); [|exact H0].
      destruct (Qlt_le_dec gamepad_nav_repeat _); [|exact H0].
      unfold set_gamepad_nav_last; simpl.
      repeat match goal with
             | |- context [if Qlt_le_dec ?a ?b then _ else _] => destruct (Qlt_le_dec a b)
             end;
      rewrite ?move_focus_flags, ?adjust_slider_flags; exact H0. }
    destruct bs as [|[|] bs']; try exact H1.
    destruct (Qlt_le_dec _ _); [|exact H1].
    apply (activate_focused_P _ H1).
  Qed.

Lemma step_P (u : UI) (e : Event) : P (flags u) -> P (flags (step u e)).
  Proof.
    intros H; destruct e as [k a t|b nx ny|now p ax bs|m nx|]; unfold step.
    - unfold on_key; destruct a; try exact H.
      destruct k; cbv beta iota;
        try (destruct (String.eqb _ _));
        rewrite ?move_focus_flags, ?adjust_slider_flags;
        auto using activate_focused_P;
        exact (P_action DoToggleOptions u H).
    - unfold on_mouse.
      destruct (negb _); [exact H|].
      destruct (_ || _).
      + destruct (show_options (flags u)).
        * destruct (first_hit _ _ _ _); exact H.
        * destruct (first_hit _ _ _ _) as [r|]; [|exact H].
          unfold click_button; destruct (deref _ r); [apply P_action|]; exact H.
      + destruct (String.eqb _ _); [|exact H].
        destruct (if pause_menu_open (flags u) then _ else None) as [r|].
        * unfold click_button; destruct (deref _ r); [apply P_action|]; exact H.
        * destruct (rect_contains _ _ _ _ _ _); [|exact H].
          apply (P_action DoOpenPause); exact H.
    - unfold frame_begin; cbn [flags set_trans].
      rewrite build_focus_list_flags.
      apply poll_gamepad_P; exact H.
    - exact H.
    - exact H.
  Qed.

Lemma reachable_P : (forall t0, P (flags (init_ui t0))) ->
    forall u, reachable u -> P (flags u).
  Proof.
    intros Hinit u Hr; induction Hr; auto using step_P.
  Qed.
End FlagInvariant.

Lemma reachable_run_events (u : UI) (es : list Event) :
  reachable u -> reachable (run_events u es).
Proof.
  revert u; induction es as [|e es IH]; intros u Hu; [exact Hu|].
  apply IH, reach_event, Hu.
Qed.

(* ------------------------------------------------------------------ *)
(** ** Claims on the scene state machine *)

Definition scene_ok (f : Flags) : Prop :=
  scene f = "home"%string \/ scene f = "menu"%string \/ scene f = "playing"%string.

(** C3: from the initial scene "home", every handled input event (key,
    mouse click, gamepad poll, frame) and every action leaves [scene] equal
    to one of exactly "home", "menu" or "playing". *)
Theorem scene_always_valid (u : UI) : reachable u -> scene_ok (flags u).
Proof.
  apply reachable_P.
  - intros a v H; destruct a; cbn; unfold scene_ok in *; cbn; auto.
  - intros v H; exact H.
  - intros v H; exact H.
  - intros t0; left; reflexivity.
Qed.

Definition demo_events : list Event :=
  [EvKey KEY_ENTER PRESS 1; EvKey KEY_ESCAPE PRESS 2;
   EvKey KEY_DOWN PRESS 3; EvKey KEY_DOWN PRESS 4; EvKey KEY_ENTER PRESS 5].

Lemma scene_always_valid_witness :
  reachable (run_events (init_ui 1) demo_events) /\
  scene_ok (flags (run_events (init_ui 1) demo_events)).
Proof.
  assert (H : reachable (run_events (init_ui 1) demo_events))
    by (apply reachable_run_events, reach_init).
  split; [exact H | apply (scene_always_valid _ H)].
Defined.

(** C9: [pause_menu_open == paused] holds initially and after every action
    and every handled input event. *)
Theorem pause_flags_equal (u : UI) :
  reachable u -> paused (flags u) = pause_menu_open (flags u).
Proof.
  apply (reachable_P (fun f => paused f = pause_menu_open f)).
  - intros a v H; destruct a; cbn; auto.
  - intros v H; reflexivity.
  - intros v H; exact H.
  - intros t0; reflexivity.
Qed.

Lemma pause_flags_equal_witness :
  reachable (run_events (init_ui 1) demo_events) /\
  paused (flags (run_events (init_ui 1) demo_events)) =
  pause_menu_open (flags (run_events (init_ui 1) demo_events)).
Proof.
  assert (H : reachable (run_events (init_ui 1) demo_events))
    by (apply reachable_run_events, reach_init).
  split; [exact H | apply (pause_flags_equal _ H)].
Defined.

(* ------------------------------------------------------------------ *)
(** ** Claims on the slider *)

(** C2: after [set_from_norm(t)] the value is [min + clamp(t,0,1)*(max-min)]
    with [clamp(t,0,1) = max(0, min(1, t))], for every [t]. *)
Theorem set_from_norm_value (s : FocusableSlider) (t : Q) :
  value (set_from_norm s t) == minv s + Qmax 0 (Qmin 1 t) * (maxv s - minv s).
Proof. cbn [value set_from_norm]. rewrite clamp_max_min. reflexivity. Qed.

Lemma normalized_set_from_norm (s : FocusableSlider) (t : Q) :
  minv s < maxv s -> normalized (set_from_norm s t) == clamp t 0 1.
Proof.
  intros H; unfold normalized; cbn [value minv maxv set_from_norm].
  field. intros E; lra.
Qed.

(** C10: with [minv < maxv], [normalized (set_from_norm t) = t] for every
    [t] in [0, 1]; and after any [set_from_norm] the value lies in
    [minv, maxv] and [normalized()] in [0, 1]. *)
Theorem slider_roundtrip (s : FocusableSlider) :
  minv s < maxv s ->
  (forall t, 0 <= t <= 1 -> normalized (set_from_norm s t) == t) /\
  (forall t, minv s <= value (set_from_norm s t) <= maxv s /\
             0 <= normalized (set_from_norm s t) <= 1).
Proof.
  intros H; split.
  - intros t Ht. rewrite (normalized_set_from_norm _ _ H). apply clamp_id, Ht.
  - intros t. rewrite (normalized_set_from_norm _ _ H).
    pose proof (clamp_bounds t) as Hc.
    cbn [value minv maxv set_from_norm].
    split; [|exact Hc].
    set (c := clamp t 0 1) in *. nra.
Qed.

Lemma slider_roundtrip_witness :
  minv init_s_scale < maxv init_s_scale /\
  normalized (set_from_norm init_s_scale (1 # 4)) == 1 # 4.
Proof.
  assert (H : minv init_s_scale < maxv init_s_scale) by (vm_compute; reflexivity).
  split; [exact H|].
  apply (proj1 (slider_roundtrip init_s_scale H)). split; vm_compute; discriminate.
Defined.

(* ------------------------------------------------------------------ *)
(** ** Claim on the transitions *)

(** [x'] lies between [x] and the target [g]. *)
Definition approaches (x x' g : Q) : Prop :=
  Qabs (x' - g) <= Qabs (x - g) /\ ((x <= x' /\ x' <= g) \/ (g <= x' /\ x' <= x)).

Lemma lerp_approaches (x g c : Q) : 0 <= c <= 1 -> approaches x (lerp x g c) g.
Proof.
  intros Hc; unfold approaches, lerp.
  destruct (Qlt_le_dec x g).
  - assert (0 <= (g - x) * c <= g - x) by nra.
    rewrite (Qabs_neg (x + (g - x) * c - g)) by lra.
    rewrite (Qabs_neg (x - g)) by lra. lra.
  - assert (g - x <= (g - x) * c <= 0) by nra.
    rewrite (Qabs_pos (x + (g - x) * c - g)) by lra.
    rewrite (Qabs_pos (x - g)) by lra. lra.
Qed.

(** C4: one frame's update [x' = lerp(x, target, clamp(dt*k, 0, 1))] of
    [home_alpha], [menu_alpha], [pause_alpha] and [options_slide] moves each
    value towards its target without passing it (for every [dt], in
    particular every [dt >= 0]). *)
Theorem transitions_approach (dt : Q) (f : Flags) (t : Trans) :
  let t' := transitions dt f t in
  approaches (home_alpha t) (home_alpha t')
             (if String.eqb (scene f) "home" then 1 else 0) /\
  approaches (menu_alpha t) (menu_alpha t')
             (if String.eqb (scene f) "menu" then 1 else 0) /\
  approaches (pause_alpha t) (pause_alpha t')
             (if pause_menu_open f then 1 else 0) /\
  approaches (options_slide t) (options_slide t')
             (if show_options f then 0 else -0.6).
Proof.
  cbn zeta; cbn [transitions home_alpha menu_alpha pause_alpha options_slide].
  repeat split; apply lerp_approaches, clamp_bounds.
Qed.

(* ------------------------------------------------------------------ *)
(** ** The stored buttons keep the actions [__init__] bound to them *)

Definition actions_ok (st : Store) : Prop :=
  action (start_btn st) = DoStartGame /\ action (options_btn st) = DoToggleOptions /\
  action (quit_btn st) = DoQuitGame /\ action (resume_btn st) = DoResumeFromPause /\
  action (p_options_btn st) = DoToggleOptions /\ action (main_btn st) = DoGotoMenu /\
  action (p_quit_btn st) = DoQuitGame.

Lemma store_update_actions (r : Ref) fb fs (st : Store) :
  (forall b, action (fb b) = action b) -> actions_ok st ->
  actions_ok (store_update r fb fs st).
Proof.
  intros Hfb (H1 & H2 & H3 & H4 & H5 & H6 & H7).
  destruct r; unfold actions_ok; cbn; rewrite ?Hfb; auto 8.
Qed.

Lemma mark_focused_actions (l : list Ref) (i idx : Z) (st : Store) :
  actions_ok st -> actions_ok (snd (mark_focused i idx l st)).
Proof.
  revert i st; induction l as [|r l IH]; intros i st H; [exact H|].
  cbn [mark_focused].
  pose proof (IH (i + 1)%Z (store_update r (fun b => set_focused b (Z.eqb i idx))
               (fun s => set_s_focused s (Z.eqb i idx)) st)) as IH'.
  destruct (mark_focused _ _ _ _) as [l'' st2]; apply IH'.
  apply store_update_actions; [reflexivity|exact H].
Qed.

Lemma mark_focused_length (l : list Ref) (i idx : Z) (st : Store) :
  length (fst (mark_focused i idx l st)) = length l.
Proof.
  revert i st; induction l as [|r l IH]; intros i st; [reflexivity|].
  cbn [mark_focused].
  pose proof (IH (i + 1)%Z (store_update r (fun b => set_focused b (Z.eqb i idx))
               (fun s => set_s_focused s (Z.eqb i idx)) st)) as IH'.
  destruct (mark_focused _ _ _ _) as [l'' st2]; cbn in *; rewrite IH'; reflexivity.
Qed.

Lemma run_action_store (a : ButtonAction) (u : UI) : store (run_action a u) = store u.
Proof. destruct a; reflexivity. Qed.

Lemma move_focus_actions (d : Z) (t : Q) (u : UI) :
  actions_ok (store u) -> actions_ok (store (move_focus d t u)).
Proof.
  intros H; unfold move_focus.
  destruct (focus_list (focus (build_focus_list u))) as [|r l]; [exact H|].
  destruct (Qlt_le_dec _ _); [exact H|].
  pose proof (mark_focused_actions (r :: l) 0
    (Z.modulo (focus_index (focus (build_focus_list u)) + d) (Z.of_nat (length (r :: l))))
    (store (build_focus_list u)) H) as Hm.
  destruct (mark_focused _ _ _ _); exact Hm.
Qed.

Lemma activate_focused_actions (u : UI) :
  actions_ok (store u) -> actions_ok (store (activate_focused u)).
Proof.
  intros H; unfold activate_focused.
  destruct (focused_ref _) as [r|]; [|exact H].
  destruct (deref _ r); [rewrite run_action_store; exact H|].
  apply store_update_actions; [reflexivity|exact H].
Qed.

Lemma adjust_slider_actions (d : Q) (u : UI) :
  actions_ok (store u) -> actions_ok (store (adjust_slider d u)).
Proof.
  intros H; unfold adjust_slider.
  destruct (focused_ref _) as [r|]; [|exact H].
  destruct (deref _ r); [exact H|].
  apply store_update_actions; [reflexivity|exact H].
Qed.

Lemma poll_gamepad_actions (p : bool) (ax : list Q) (bs : list bool) (now : Q) (u : UI) :
  actions_ok (store u) -> actions_ok (store (poll_gamepad p ax bs now u)).
Proof.
  intros H.
  assert (H0 : actions_ok (store (if p then set_joy_present u else u)))
    by (destruct p; exact H).
  unfold poll_gamepad.
  set (u0 := if p then set_joy_present u else u) in *.
  destruct (negb _); [exact H0|].
  assert (H1 : actions_ok (store (poll_axes ax now u0))).
  { unfold poll_axes. destruct ax as [|a ax']; [exact H0|].
    destruct (_ || _); [|exact H0].
    destruct (Qlt_le_dec gamepad_nav_repeat _); [|exact H0].
    unfold set_gamepad_nav_last; cbn [store set_focus].
    repeat match goal with
           | |- context [if Qlt_le_dec ?a ?b then _ else _] => destruct (Qlt_le_dec a b)
           end;
    auto using move_focus_actions, adjust_slider_actions. }
  destruct bs as [|[|] bs']; try exact H1.
  destruct (Qlt_le_dec _ _); [|exact H1].
  apply (activate_focused_actions _ H1).
Qed.

Lemma step_actions (u : UI) (e : Event) :
  actions_ok (store u) -> actions_ok (store (step u e)).
Proof.
  intros H; destruct e as [k a t|b nx ny|now p ax bs|m nx|]; unfold step.
  - unfold on_key; destruct a; try exact H.
    destruct k; cbv beta iota; try (destruct (String.eqb _ _));
      auto using move_focus_actions, adjust_slider_actions, activate_focused_actions.
  - unfold on_mouse.
    destruct (negb _); [exact H|].
    destruct (_ || _).
    + destruct (show_options (flags u)).
      * destruct (first_hit _ _ _ _) as [r|]; [|exact H].
        apply store_update_actions; [reflexivity|exact H].
      * destruct (first_hit _ _ _ _) as [r|]; [|exact H].
        unfold click_button; destruct (deref _ r); [rewrite run_action_store|]; exact H.
    + destruct (String.eqb _ _); [|exact H].
      destruct (if pause_menu_open (flags u) then _ else None) as [r|].
      * unfold click_button; destruct (deref _ r); [rewrite run_action_store|]; exact H.
      * destruct (rect_contains _ _ _ _ _ _); exact H.
  - unfold frame_begin; cbn [store set_trans].
    apply poll_gamepad_actions; exact H.
  - unfold frame_drag; cbn [store set_store].
    apply store_update_actions; [reflexivity|].
    apply store_update_actions; [reflexivity|exact H].
  - exact H.
Qed.

Lemma reachable_actions (u : UI) : reachable u -> actions_ok (store u).
Proof.
  intros Hr; induction Hr as [t0|u e Hr IH|u a Hr IH].
  - repeat split.
  - apply step_actions, IH.
  - rewrite run_action_store; exact IH.
Qed.

(* ------------------------------------------------------------------ *)
(** ** Focus index bounds *)

(** [idx] is a valid index of a list of length [n], or [-1] when [n = 0]. *)
Definition idx_in_bounds (idx : Z) (n : nat) : Prop :=
  (n = 0%nat /\ idx = (-1)%Z) \/ ((0 < n)%nat /\ (0 <= idx <= Z.of_nat n - 1)%Z).

(** Bounds against the list stored in [self.focus_list]. *)
Definition focus_ok (u : UI) : Prop :=
  idx_in_bounds (focus_index (focus u)) (length (focus_list (focus u))).

(** Bounds against the controls the current scene and flags make visible. *)
Definition focus_ok_visible (u : UI) : Prop :=
  idx_in_bounds (focus_index (focus u)) (length (visible_controls (flags u))).

Lemma build_focus_list_ok (u : UI) :
  focus_list (focus (build_focus_list u)) = visible_controls (flags u) /\
  focus_ok (build_focus_list u).
Proof.
  unfold focus_ok, build_focus_list; cbn.
  split; [reflexivity|].
  destruct (visible_controls (flags u)) as [|r l]; [left; auto|].
  right; cbn [length]; unfold clampZ; split; lia.
Qed.

Lemma run_action_focus (a : ButtonAction) (u : UI) : focus (run_action a u) = focus u.
Proof. destruct a; reflexivity. Qed.

Lemma activate_focused_focus (u : UI) :
  focus (activate_focused u) = focus (build_focus_list u).
Proof.
  unfold activate_focused.
  destruct (focused_ref _) as [r|]; [|reflexivity].
  destruct (deref _ r); [apply run_action_focus|reflexivity].
Qed.

Lemma adjust_slider_focus (d : Q) (u : UI) :
  focus (adjust_slider d u) = focus (build_focus_list u).
Proof.
  unfold adjust_slider.
  destruct (focused_ref _) as [r|]; [|reflexivity].
  destruct (deref _ r); reflexivity.
Qed.

Lemma move_focus_ok (d : Z) (t : Q) (u : UI) :
  length (focus_list (focus (move_focus d t u))) = length (visible_controls (flags u)) /\
  focus_ok (move_focus d t u).
Proof.
  destruct (build_focus_list_ok u) as [Hl Hok].
  unfold move_focus.
  destruct (focus_list (focus (build_focus_list u))) as [|r l] eqn:E;
    [rewrite E, <- Hl; split; [reflexivity|exact Hok]|].
  destruct (Qlt_le_dec _ _); [rewrite E, <- Hl; split; [reflexivity|exact Hok]|].
  set (idx := Z.modulo _ _).
  pose proof (mark_focused_length (r :: l) 0 idx (store (build_focus_list u))) as Hlen.
  assert (Hidx : (0 <= idx < Z.of_nat (length (r :: l)))%Z)
    by (apply Z.mod_pos_bound; cbn [length]; lia).
  destruct (mark_focused _ _ _ _) as [l' st']; cbn in Hlen |- *.
  unfold focus_ok, idx_in_bounds; cbn [focus focus_list focus_index].
  rewrite <- Hl, Hlen; cbn [length] in Hidx |- *.
  split; [reflexivity|right; split; lia].
Qed.

(** Split on the value of the clamped focus index of a list of length at
    most 4. *)
Ltac enum_index k :=
  let E := fresh "E" in
  assert (E : k = 0%Z \/ k = 1%Z \/ k = 2%Z \/ k = 3%Z) by lia;
  destruct E as [E|[E|[E|E]]]; try (exfalso; lia); rewrite E.

Lemma activate_focused_visible (u : UI) :
  actions_ok (store u) -> focus_ok_visible (activate_focused u).
Proof.
  destruct u as [[sc so pa pm cl] st fo tr].
  intros (H1 & H2 & H3 & H4 & H5 & H6 & H7); cbn [store] in *.
  unfold focus_ok_visible, activate_focused, focused_ref, build_focus_list,
    visible_controls, clampZ, options_sliders, home_buttons, menu_buttons,
    pause_buttons;
  cbn [flags focus store set_focus focus_list focus_index scene show_options pause_menu_open].
  destruct (String.eqb sc "home") eqn:Eh;
    [|destruct (String.eqb sc "menu") eqn:Em;
      [|destruct (String.eqb sc "playing") eqn:Ep]];
    destruct so, pm;
    cbn [length flags set_focus scene show_options pause_menu_open focus focus_index];
    rewrite ?Eh, ?Em, ?Ep;
    try (left; split; reflexivity);
    lazymatch goal with
    | |- context [Z.max 0 (Z.min ?n ?x)] => enum_index (Z.max 0 (Z.min n x))
    end;
    simpl; rewrite ?H1, ?H2, ?H3, ?H4, ?H5, ?H6, ?H7; simpl;
    rewrite ?Eh, ?Em, ?Ep; cbn;
    unfold idx_in_bounds; cbn; right; split; lia.
Qed.

(** C1: after [build_focus_list], in any state (any scene string, any flags,
    any previous index), the focus list is the visible-control list and the
    focus index lies in [0, len - 1], or is [-1] when the list is empty.
    [move_focus], [activate_focused] and [adjust_slider] (which rebuild the
    list first) leave the index within the bounds of [self.focus_list]; for
    [move_focus] and [adjust_slider] that list has the length of the
    visible-control list of the resulting state, and after
    [activate_focused] (whose button action may change the scene) the
    index is within the bounds of that state's visible controls as well,
    in every reachable state. *)
Theorem focus_index_bounds (u : UI) (delta : Z) (tnow dn : Q) :
  (focus_list (focus (build_focus_list u)) = visible_controls (flags u) /\
   focus_ok (build_focus_list u) /\ focus_ok_visible (build_focus_list u)) /\
  (focus_ok (move_focus delta tnow u) /\ focus_ok_visible (move_focus delta tnow u)) /\
  (focus_ok (adjust_slider dn u) /\ focus_ok_visible (adjust_slider dn u)) /\
  (focus_ok (activate_focused u) /\
   (reachable u -> focus_ok_visible (activate_focused u))).
Proof.
  destruct (build_focus_list_ok u) as [Hl Hok].
  destruct (move_focus_ok delta tnow u) as [Hml Hmok].
  assert (Hb : focus_ok_visible (build_focus_list u)).
  { unfold focus_ok_visible; rewrite build_focus_list_flags, <- Hl; exact Hok. }
  split; [split; [exact Hl|split; assumption]|].
  split.
  { split; [exact Hmok|].
    unfold focus_ok_visible; rewrite move_focus_flags, <- Hml; exact Hmok. }
  split.
  { unfold focus_ok, focus_ok_visible.
    rewrite adjust_slider_focus, adjust_slider_flags; split; [exact Hok|exact Hb]. }
  split.
  { unfold focus_ok; rewrite activate_focused_focus; exact Hok. }
  intros Hr; apply activate_focused_visible, reachable_actions, Hr.
Qed.

Lemma focus_index_bounds_witness :
  reachable (run_events (init_ui 1) demo_events) /\
  focus_ok_visible (activate_focused (run_events (init_ui 1) demo_events)).
Proof.
  assert (H : reachable (run_events (init_ui 1) demo_events))
    by (apply reachable_run_events, reach_init).
  split; [exact H|].
  exact (proj2 (proj2 (proj2 (proj2 (focus_index_bounds _ 1 0 0))))  H).
Defined.

(* ------------------------------------------------------------------ *)
(** ** Focused flags written by [move_focus] *)

Definition obj_focused (o : Obj) : bool :=
  match o with OButton b => focused b | OSlider s => s_focused s end.

(** Two references denote the same stored object. *)
Definition same_slot (r r' : Ref) : bool :=
  match r, r' with
  | RStart, RStart | ROptions, ROptions | RQuit, RQuit | RResume, RResume
  | RPOptions, RPOptions | RMain, RMain | RPQuit, RPQuit
  | RScale, RScale | RSpeed, RSpeed => true
  | _, _ => false
  end.

Fixpoint slots_distinct (l : list Ref) : Prop :=
  match l with
  | [] => True
  | r :: l' => Forall (fun r' => same_slot r r' = false) l' /\ slots_distinct l'
  end.

(** The list element [mark_focused] leaves in place of [r]. *)
Definition mark_ref (v : bool) (r : Ref) : Ref :=
  match r with RFresh b => RFresh (set_focused b v) | _ => r end.

Lemma same_slot_sym (r r' : Ref) : same_slot r r' = same_slot r' r.
Proof. destruct r, r'; reflexivity. Qed.

Lemma same_slot_mark_ref (v : bool) (r r' : Ref) :
  same_slot (mark_ref v r) r' = same_slot r r'.
Proof. destruct r, r'; reflexivity. Qed.

Lemma deref_update_other (r r' : Ref) fb fs (st : Store) :
  same_slot r r' = false -> deref (store_update r fb fs st) r' = deref st r'.
Proof. destruct r, r'; cbn; congruence. Qed.

Lemma deref_update_self (r : Ref) (v : bool) (st : Store) :
  obj_focused (deref (store_update r (fun b => set_focused b v)
                        (fun s => set_s_focused s v) st) (mark_ref v r)) = v.
Proof. destruct r; reflexivity. Qed.

Lemma mark_focused_other (l : list Ref) (i idx : Z) (st : Store) (r' : Ref) :
  Forall (fun x => same_slot x r' = false) l ->
  deref (snd (mark_focused i idx l st)) r' = deref st r'.
Proof.
  revert i st; induction l as [|r l IH]; intros i st Hf; [reflexivity|].
  inversion Hf as [|? ? Hr Hl]; subst.
  cbn [mark_focused].
  pose proof (IH (i + 1)%Z (store_update r (fun b => set_focused b (Z.eqb i idx))
               (fun s => set_s_focused s (Z.eqb i idx)) st) Hl) as IH'.
  destruct (mark_focused _ _ _ _) as [l'' st2]; cbn [snd] in *.
  rewrite IH'; apply deref_update_other, Hr.
Qed.

Lemma mark_focused_nth (l : list Ref) (i idx : Z) (st : Store) :
  slots_distinct l ->
  forall k r', nth_error (fst (mark_focused i idx l st)) k = Some r' ->
  exists r, nth_error l k = Some r /\
            r' = mark_ref (Z.eqb (i + Z.of_nat k) idx) r /\
            obj_focused (deref (snd (mark_focused i idx l st)) r') =
            Z.eqb (i + Z.of_nat k) idx.
Proof.
  revert i st; induction l as [|r l IH]; intros i st Hdis k r' Hk;
    [destruct k; discriminate|].
  destruct Hdis as [Hr Hd].
  cbn [mark_focused] in *.
  set (st1 := store_update r (fun b => set_focused b (Z.eqb i idx))
                (fun s => set_s_focused s (Z.eqb i idx)) st) in *.
  pose proof (IH (i + 1)%Z st1 Hd) as IH'.
  pose proof (mark_focused_other l (i + 1) idx st1 (mark_ref (Z.eqb i idx) r)) as Ho.
  destruct (mark_focused _ _ _ _) as [l'' st2]; cbn [fst snd] in *.
  destruct k as [|k].
  - cbn in Hk; injection Hk as <-.
    exists r; replace (i + Z.of_nat 0)%Z with i by lia.
    split; [reflexivity|split; [reflexivity|]].
    assert (HF : Forall (fun x => same_slot x (mark_ref (Z.eqb i idx) r) = false) l).
    { eapply Forall_impl; [|exact Hr]; intros x Hx; cbn beta.
      rewrite same_slot_sym, same_slot_mark_ref; exact Hx. }
    specialize (Ho HF); unfold mark_ref in Ho; rewrite Ho.
    apply deref_update_self.
  - cbn in Hk.
    destruct (IH' k r' Hk) as (r0 & Hn & Hm & Hf).
    exists r0; split; [exact Hn|].
    replace (i + Z.of_nat (S k))%Z with (i + 1 + Z.of_nat k)%Z by lia.
    split; assumption.
Qed.

Lemma visible_controls_distinct (f : Flags) : slots_distinct (visible_controls f).
Proof.
  unfold visible_controls.
  repeat match goal with
         | |- context [if ?c then _ else _] => destruct c
         end; cbn; repeat constructor.
Qed.

(* ------------------------------------------------------------------ *)
(** ** Claim on the navigation debounce *)

(** Start, open the pause menu, move the focus down three times to
    "Quit" (index 3), then close the pause menu with Escape. *)
Definition pause_nav_events : list Event :=
  [EvKey KEY_ENTER PRESS 1; EvKey KEY_ESCAPE PRESS 2;
   EvKey KEY_DOWN PRESS 3; EvKey KEY_DOWN PRESS 4; EvKey KEY_DOWN PRESS 5;
   EvKey KEY_ESCAPE PRESS (505 # 100)].

(** C6 (counterexample): a [move_focus] call made 0.1 s after the last
    accepted navigation is rejected by the debounce, yet [focus_index]
    changes from 3 to 1: the list is rebuilt (two HUD buttons) and the
    index clamped before the debounce test. *)
Lemma move_focus_debounce_counterexample :
  let u := run_events (init_ui 1) pause_nav_events in
  reachable u /\
  nav_last (focus u) == 5 /\
  (51 # 10) - nav_last (focus u) < nav_repeat_delay /\
  focus_index (focus u) = 3%Z /\
  focus_index (focus (move_focus 1 (51 # 10) u)) = 1%Z.
Proof.
  cbn zeta; split; [apply reachable_run_events, reach_init|].
  vm_compute; repeat split; reflexivity.
Qed.

(** C6 (amended): [move_focus(delta)] first rebuilds the list, which sets
    the index to the clamped [clamp(old, 0, len-1)] ([-1] when empty).  If
    the rebuilt list is empty or [tnow - nav_last < nav_repeat_delay]
    (0.25 s), the call changes nothing more: the result is the rebuilt
    state, whose stored buttons and sliders (and their focused flags) are
    those of the input.  Otherwise it sets [nav_last := tnow] and
    [focus_index := (clamped index + delta) mod len], keeps the list length,
    and marks exactly the control at the new index as focused. *)
Theorem move_focus_debounce (u : UI) (delta : Z) (tnow : Q) :
  let u1 := build_focus_list u in
  let lst := focus_list (focus u1) in
  let i1 := focus_index (focus u1) in
  (lst <> [] -> i1 = clampZ (focus_index (focus u)) 0 (Z.of_nat (length lst) - 1)) /\
  ((lst = [] \/ tnow - nav_last (focus u) < nav_repeat_delay) ->
     move_focus delta tnow u = u1 /\ store (move_focus delta tnow u) = store u) /\
  (lst <> [] -> nav_repeat_delay <= tnow - nav_last (focus u) ->
     let v := move_focus delta tnow u in
     focus_index (focus v) = Z.modulo (i1 + delta) (Z.of_nat (length lst)) /\
     nav_last (focus v) = tnow /\
     length (focus_list (focus v)) = length lst /\
     forall k r, nth_error (focus_list (focus v)) k = Some r ->
       obj_focused (deref (store v) r) = Z.eqb (Z.of_nat k) (focus_index (focus v))).
Proof.
  cbn zeta.
  split.
  { unfold build_focus_list; cbn [focus set_focus focus_list focus_index].
    destruct (visible_controls (flags u)); [contradiction|reflexivity]. }
  split.
  { intros Hc; unfold move_focus.
    destruct (focus_list (focus (build_focus_list u))) as [|r l] eqn:E;
      [split; reflexivity|].
    destruct Hc as [Hc|Hc]; [discriminate|].
    destruct (Qlt_le_dec _ _) as [_|Hle]; [split; reflexivity|].
    exfalso; cbn in Hle; lra. }
  intros Hne Hle; unfold move_focus.
  pose proof (visible_controls_distinct (flags u)) as Hd.
  destruct (build_focus_list_ok u) as [Hl _].
  destruct (focus_list (focus (build_focus_list u))) as [|r l] eqn:E; [contradiction|].
  destruct (Qlt_le_dec _ _) as [Hlt|_]; [exfalso; cbn in Hlt; lra|].
  set (idx := Z.modulo _ _).
  rewrite <- Hl in Hd.
  pose proof (mark_focused_nth (r :: l) 0 idx (store (build_focus_list u)) Hd) as Hn.
  pose proof (mark_focused_length (r :: l) 0 idx (store (build_focus_list u))) as Hlen.
  destruct (mark_focused _ _ _ _) as [l' st']; cbn [fst snd] in *.
  cbn [focus store focus_index nav_last focus_list].
  split; [reflexivity|split; [reflexivity|split; [exact Hlen|]]].
  intros k r' Hk.
  destruct (Hn k r' Hk) as (r0 & _ & _ & Hf).
  rewrite Hf; reflexivity.
Qed.

Lemma move_focus_debounce_witness :
  let u := run_events (init_ui 1) pause_nav_events in
  move_focus 1 (51 # 10) u = build_focus_list u.
Proof.
  cbn zeta.
  apply (proj1 (proj2 (move_focus_debounce _ 1 (51 # 10)))).
  right; vm_compute; reflexivity.
Defined.

(* ------------------------------------------------------------------ *)
(** ** Claim on the glyph atlas *)

Module AtlasFacts.
Import Atlas.
Local Open Scope Z_scope.

Definition pairwise_disjoint (l : list Placement) : Prop :=
  forall i j p q, (i < j)%nat -> nth_error l i = Some p -> nth_error l j = Some q ->
  ~ overlap p q.

(** The loop invariant of the packing loop for a width [W]. *)
Definition pack_inv (W : Z) (s : Pack) : Prop :=
  y s = atlas_h s /\ 0 <= x s <= W /\ 0 <= row_h s /\ 0 <= y s /\
  (forall p, In p (placements s) ->
     0 <= px p /\ px p + pw p <= W /\ 0 <= py p /\ 0 <= ph p /\
     (py p + ph p <= y s \/ (py p = y s /\ px p + pw p <= x s /\ ph p <= row_h s))) /\
  pairwise_disjoint (placements s).

Lemma pairwise_disjoint_snoc (l : list Placement) (q : Placement) :
  pairwise_disjoint l -> (forall p, In p l -> ~ overlap p q) ->
  pairwise_disjoint (l ++ [q]).
Proof.
  intros Hl Hq i j p q' Hij Hi Hj.
  assert (Hil : (i < length l)%nat).
  { destruct (Nat.lt_ge_cases i (length l)) as [H|H]; [exact H|].
    rewrite nth_error_app2 in Hi by exact H.
    destruct (i - length l)%nat as [|k]; [|destruct k; discriminate].
    rewrite nth_error_app2 in Hj by lia.
    destruct (j - length l)%nat as [|k] eqn:E; [lia|destruct k; discriminate]. }
  rewrite nth_error_app1 in Hi by exact Hil.
  destruct (Nat.lt_ge_cases j (length l)) as [Hjl|Hjl].
  - rewrite nth_error_app1 in Hj by exact Hjl. exact (Hl i j p q' Hij Hi Hj).
  - rewrite nth_error_app2 in Hj by exact Hjl.
    destruct (j - length l)%nat as [|k]; [|destruct k; discriminate].
    injection Hj as <-. apply Hq. eapply nth_error_In; exact Hi.
Qed.

Lemma pack_step_inv (W : Z) (s : Pack) (g : Img) :
  0 <= iw g <= W -> 0 <= ih g -> pack_inv W s -> pack_inv W (pack_step W s g).
Proof.
  intros Hw Hh (Hya & Hx & Hrh & Hy & Hps & Hpd).
  unfold pack_step.
  set (s1 := if Z.ltb W (x s + iw g)
             then mkPack 0 (y s + row_h s) 0 (atlas_h s + row_h s) (placements s) else s).
  (* the state after the wrap test *)
  assert (H1 : y s1 = atlas_h s1 /\ 0 <= x s1 /\ x s1 + iw g <= W /\ 0 <= row_h s1 /\
               0 <= y s1 /\ placements s1 = placements s /\
               (forall p, In p (placements s1) ->
                  py p + ph p <= y s1 \/
                  (py p = y s1 /\ px p + pw p <= x s1 /\ ph p <= row_h s1))).
  { unfold s1; destruct (Z.ltb_spec W (x s + iw g)); cbn.
    - repeat split; try lia.
      intros p Hp; left. destruct (Hps p Hp) as (_ & _ & _ & _ & [E|(E & _ & E')]); lia.
    - repeat split; try lia. intros p Hp; apply Hps, Hp. }
  destruct H1 as (Hya1 & Hx1 & Hxw1 & Hrh1 & Hy1 & Hpl1 & Hps1).
  unfold pack_inv; cbn [x y row_h atlas_h placements].
  split; [exact Hya1|]. split; [lia|]. split; [lia|]. split; [exact Hy1|].
  split.
  - intros p Hp. apply in_app_or in Hp as [Hp|[<-|[]]].
    + pose proof (Hps1 p Hp) as Hr. rewrite Hpl1 in Hp.
      destruct (Hps p Hp) as (Hp1 & Hp2 & Hp3 & Hp4 & _).
      destruct Hr as [Hr|(Hr1 & Hr2 & Hr3)]; repeat split; lia.
    + cbn; repeat split; lia.
  - apply pairwise_disjoint_snoc; [rewrite Hpl1; exact Hpd|].
    intros p Hp (O1 & O2 & O3 & O4); cbn in O1, O2, O3, O4.
    destruct (Hps1 p Hp) as [Hr|(Hr1 & Hr2 & _)]; lia.
Qed.

Lemma pack_loop_inv (W : Z) (l : list Img) (s : Pack) :
  Forall (fun g => 0 <= iw g <= W /\ 0 <= ih g) l -> pack_inv W s ->
  pack_inv W (fold_left (pack_step W) l s).
Proof.
  revert s; induction l as [|g l IH]; intros s Hl Hs; [exact Hs|].
  inversion Hl as [|? ? [Hg1 Hg2] Hl']; subst.
  apply IH; [exact Hl'|apply pack_step_inv; assumption].
Qed.

Lemma row_height_snoc (cur : list Img) (g : Img) :
  row_height (cur ++ [g]) = Z.max (row_height cur) (ih g).
Proof.
  induction cur as [|c cur IH]; cbn; [lia|].
  unfold row_height in IH; rewrite IH; lia.
Qed.

Lemma pack_loop_rows (W : Z) (l : list Img) (s : Pack) (cur : list Img) :
  row_h s = row_height cur ->
  atlas_h (fold_left (pack_step W) l s) + row_h (fold_left (pack_step W) l s) =
  atlas_h s + sum_heights (rows_acc W cur (x s) l).
Proof.
  revert s cur; induction l as [|g l IH]; intros s cur Hr.
  - cbn; rewrite Hr; lia.
  - cbn [fold_left rows_acc].
    destruct (Z.ltb W (x s + iw g)) eqn:E.
    + rewrite (IH (pack_step W s g) [g]); unfold pack_step; rewrite E;
        cbn [x atlas_h row_h sum_heights fold_right].
      * unfold sum_heights; cbn [fold_right]; rewrite Z.add_0_l, Hr; lia.
      * unfold row_height; cbn; lia.
    + rewrite (IH (pack_step W s g) (cur ++ [g])); unfold pack_step; rewrite E;
        cbn [x atlas_h row_h].
      * reflexivity.
      * rewrite row_height_snoc, Hr; reflexivity.
Qed.

Lemma dict_get_set {V : Type} (k k' : ascii) (v : V) (d : list (ascii * V)) :
  dict_get k (dict_set k' v d) = if Ascii.eqb k k' then Some v else dict_get k d.
Proof.
  induction d as [|[k1 v1] d IH]; cbn; [reflexivity|].
  destruct (Ascii.eqb k' k1) eqn:E1; cbn.
  - apply Ascii.eqb_eq in E1; subst k1.
    destruct (Ascii.eqb k k'); reflexivity.
  - destruct (Ascii.eqb k k1) eqn:E2; rewrite ?IH; [|reflexivity].
    apply Ascii.eqb_eq in E2; subst k1.
    destruct (Ascii.eqb k k') eqn:E3; [|reflexivity].
    apply Ascii.eqb_eq in E3; subst k'. rewrite Ascii.eqb_refl in E1; discriminate.
Qed.

Lemma glyphs_from_placements (pls : list Placement) d ch g :
  dict_get ch (fold_left (fun d p => dict_set (pch p) (px p, py p, pw p, ph p) d) pls d) = Some g ->
  dict_get ch d = Some g \/ exists p, In p pls /\ g = (px p, py p, pw p, ph p).
Proof.
  revert d; induction pls as [|p pls IH]; intros d H; [left; exact H|].
  cbn [fold_left] in H. destruct (IH _ H) as [H'|(q & Hq & ->)].
  - rewrite dict_get_set in H'. destruct (Ascii.eqb ch (pch p)).
    + injection H' as <-. right; exists p; split; [left|]; reflexivity.
    + left; exact H'.
  - right; exists q; split; [right; exact Hq|reflexivity].
Qed.

Lemma total_width_nonneg (l : list Img) :
  Forall (fun g => 0 <= iw g) l -> 0 <= total_width l.
Proof.
  unfold total_width.
  assert (G : forall t, 0 <= t -> Forall (fun g => 0 <= iw g) l ->
                0 <= fold_left (fun t i => t + iw i) l t).
  { induction l as [|g l IH]; intros t Ht Hl; [exact Ht|].
    inversion Hl; subst; cbn; apply IH; [lia|assumption]. }
  intros Hl; apply G; [lia|exact Hl].
Qed.

Lemma measure_nonneg (font_size padding : Z) (m : ascii * (Z * Z)) :
  0 <= font_size -> 0 <= padding -> 0 <= fst (snd m) -> 0 <= snd (snd m) ->
  0 <= iw (measure font_size padding m) /\ 0 <= ih (measure font_size padding m).
Proof.
  destruct m as [ch [mw mh]]; cbn; intros Hf Hp Hw Hh.
  pose proof (Z.div_pos font_size 4 Hf ltac:(lia)).
  pose proof (Z.div_pos font_size 2 Hf ltac:(lia)).
  destruct (Z.eqb mw 0), (Z.eqb mh 0); lia.
Qed.

Lemma overlap_sym (p q : Placement) : overlap p q -> overlap q p.
Proof. unfold overlap; lia. Qed.

(** C7: [_build_atlas] uses the width [atlas_w = min(total width, 2048)].
    When every glyph image is at most [atlas_w] wide, every placement lies
    inside the [atlas_w] x [atlas_h] atlas and no two placements overlap.
    [atlas_h] is the sum of the row heights of the left-to-right rows that
    wrap when the next image would pass [atlas_w], each row's height being
    its tallest image.  Every entry of [self.glyphs] is one of these
    placements. *)
Theorem build_atlas_layout (font_size padding : Z) (chars : list (ascii * (Z * Z)))
    (aw ah : Z) (pls : list Placement) glyphs :
  0 <= font_size -> 0 <= padding ->
  Forall (fun m => 0 <= fst (snd m) /\ 0 <= snd (snd m)) chars ->
  build_atlas font_size padding chars = (aw, ah, pls, glyphs) ->
  Forall (fun g => iw g <= aw) (map (measure font_size padding) chars) ->
  aw = Z.min (total_width (map (measure font_size padding) chars)) 2048 /\
  (forall p, In p pls ->
     0 <= px p /\ px p + pw p <= aw /\ 0 <= py p /\ py p + ph p <= ah) /\
  (forall i j p q, i <> j -> nth_error pls i = Some p -> nth_error pls j = Some q ->
     ~ overlap p q) /\
  ah = sum_heights (rows_of aw (map (measure font_size padding) chars)) /\
  (forall ch g, dict_get ch glyphs = Some g ->
     exists p, In p pls /\ g = (px p, py p, pw p, ph p)).
Proof.
  intros Hf Hp Hm Hb Hwide.
  set (imgs := map (measure font_size padding) chars) in *.
  assert (Hnn : Forall (fun g => 0 <= iw g /\ 0 <= ih g) imgs).
  { unfold imgs; apply Forall_map. eapply Forall_impl; [|exact Hm].
    intros m [H1 H2]; apply measure_nonneg; assumption. }
  unfold build_atlas in Hb; fold imgs in Hb.
  set (W := Z.min (total_width imgs) 2048) in *.
  assert (HW : 0 <= W).
  { unfold W. pose proof (total_width_nonneg imgs) as T.
    assert (0 <= total_width imgs) by (apply T; eapply Forall_impl; [|exact Hnn]; intros g []; assumption).
    lia. }
  set (fin := fold_left (pack_step W) imgs (mkPack 0 0 0 0 [])).
  assert (Hinv : pack_inv W fin).
  { apply pack_loop_inv.
    - apply Forall_forall; intros g Hg.
      rewrite Forall_forall in Hnn, Hwide.
      destruct (Hnn g Hg); pose proof (Hwide g Hg).
      injection Hb as <- _ _ _; repeat split; lia.
    - unfold pack_inv; cbn.
      refine (conj eq_refl (conj _ (conj _ (conj _ (conj _ _))))); try lia.
      intros i j p q _ Hi; destruct i; discriminate. }
  pose proof (pack_loop_rows W imgs (mkPack 0 0 0 0 []) [] eq_refl) as Hrows.
  fold fin in Hrows.
  unfold pack in Hb; fold fin in Hb.
  injection Hb as <- <- <- <-.
  destruct Hinv as (Hya & Hx & Hrh & Hy & Hps & Hpd).
  split; [reflexivity|].
  split.
  { intros p Hin. destruct (Hps p Hin) as (H1 & H2 & H3 & H4 & [H5|(H5 & H6 & H7)]);
      repeat split; lia. }
  split.
  { intros i j p q Hij Hi Hj.
    destruct (Nat.lt_total i j) as [Hlt|[Heq|Hlt]]; [| exfalso; lia |].
    - exact (Hpd i j p q Hlt Hi Hj).
    - intros O; apply overlap_sym in O. exact (Hpd j i q p Hlt Hj Hi O). }
  split.
  { rewrite Hrows; cbn; unfold rows_of; lia. }
  intros ch g Hg.
  destruct (glyphs_from_placements _ [] ch g Hg) as [H|H]; [discriminate|exact H].
Qed.

Definition wide_chars : list (ascii * (Z * Z)) :=
  [("a"%char, (996, 20)); ("b"%char, (996, 30)); ("c"%char, (100, 20))].

Lemma build_atlas_layout_witness :
  let r := build_atlas 24 2 wide_chars in
  fst (fst (fst r)) = 2048 /\ snd (fst (fst r)) = 34 + 24 /\
  fst (fst (fst r)) = Z.min (total_width (map (measure 24 2) wide_chars)) 2048.
Proof.
  cbn zeta.
  assert (Hb : build_atlas 24 2 wide_chars =
               (fst (fst (fst (build_atlas 24 2 wide_chars))),
                snd (fst (fst (build_atlas 24 2 wide_chars))),
                snd (fst (build_atlas 24 2 wide_chars)),
                snd (build_atlas 24 2 wide_chars))) by (vm_compute; reflexivity).
  pose proof (build_atlas_layout 24 2 wide_chars _ _ _ _
                ltac:(lia) ltac:(lia) ltac:(repeat constructor; cbn; lia) Hb
                ltac:(vm_compute; repeat constructor; discriminate)) as H.
  split; [vm_compute; reflexivity|].
  split; [vm_compute; reflexivity|].
  exact (proj1 H).
Defined.

End AtlasFacts.

Module TextFacts.
Import Text.

Definition sumQ (l : list Q) : Q := fold_right Qplus 0 l.

Lemma glyph_loop (a : GlyphAtlas) (win_w win_h : Z) (pen_y alpha : Q) (l : list ascii) :
  forall (p : Q) (v : list Q) p' v',
  fold_left (glyph_step a win_w win_h pen_y alpha) l (p, v) = (p', v') ->
  p' == p + sumQ (map (spec_advance a win_w) l) /\
  length v' = (length v + 30 * length (filter (in_atlas a) l))%nat.
Proof.
  induction l as [|ch l IH]; intros p v p' v' H.
  - cbn in H; injection H as <- <-; cbn; split; [ring | lia].
  - cbn [fold_left] in H.
    unfold glyph_step at 2 in H.
    cbn [map filter sumQ fold_right]; fold (sumQ (map (spec_advance a win_w) l)).
    unfold spec_advance at 1, in_atlas at 1.
    destruct (get_glyph a ch) as [[[[gx gy] gw] gh]|].
    + destruct (IH _ _ _ _ H) as [Hp Hv]; split.
      * rewrite Hp; ring.
      * rewrite Hv; rewrite !length_app; cbn [length]; lia.
    + destruct (IH _ _ _ _ H) as [Hp Hv]; split.
      * rewrite Hp; ring.
      * exact Hv.
Qed.

(** C8: in [TextRenderer.draw_text] (past its early return), a character
    missing from the atlas adds no vertex and moves the pen by [font_size]
    pixels, or 10 pixels when [font_size] is 0, in NDC.  A character in the
    atlas adds one quad (30 floats) and moves the pen by its glyph width in
    NDC.  Over a whole text the pen ends at [left_ndc] plus the sum of these
    advances, and the vertex list has 30 floats per character that is in the
    atlas. *)
Theorem draw_text_advance (a : GlyphAtlas) (win_w win_h : Z) (text : list ascii)
    (left_ndc top_ndc alpha : Q) :
  (0 < win_w)%Z -> tex a <> 0%Z ->
  exists pen verts,
    draw_text true a win_w win_h text left_ndc top_ndc alpha = Some (pen, verts) /\
    pen == left_ndc + sumQ (map (spec_advance a win_w) text) /\
    length verts = (30 * length (filter (in_atlas a) text))%nat /\
    (forall ch, get_glyph a ch = None ->
       draw_text true a win_w win_h (text ++ [ch]) left_ndc top_ndc alpha =
       Some (pen + (inject_Z (if Z.eqb (font_size a) 0 then 10%Z else font_size a)
                    / inject_Z win_w) * 2, verts)) /\
    (forall ch gx gy gw gh, get_glyph a ch = Some (gx, gy, gw, gh) ->
       exists quad,
         draw_text true a win_w win_h (text ++ [ch]) left_ndc top_ndc alpha =
         Some (pen + (inject_Z gw / inject_Z win_w) * 2, verts ++ quad) /\
         length quad = 30%nat).
Proof.
  intros _ Htex.
  unfold draw_text; cbn [negb orb].
  destruct (Z.eqb_spec (tex a) 0) as [E|_]; [contradiction|].
  destruct (fold_left (glyph_step a win_w win_h top_ndc alpha) text (left_ndc, []))
    as [pen verts] eqn:Hf.
  destruct (glyph_loop a win_w win_h top_ndc alpha text _ _ _ _ Hf) as [Hp Hv].
  exists pen, verts; split; [reflexivity|]; split; [exact Hp|]; split; [exact Hv|].
  split.
  - intros ch Hg. rewrite fold_left_app, Hf; cbn [fold_left].
    unfold glyph_step; rewrite Hg; reflexivity.
  - intros ch gx gy gw gh Hg. rewrite fold_left_app, Hf; cbn [fold_left].
    unfold glyph_step; rewrite Hg.
    eexists; split; [rewrite <- !app_assoc; reflexivity | reflexivity].
Qed.

Definition demo_atlas : GlyphAtlas :=
  mkGlyphAtlas 24 [("a"%char, (0%Z, 0%Z, 10%Z, 20%Z))] 1 100 20.

Lemma draw_text_advance_witness :
  (0 < 800)%Z /\ tex demo_atlas <> 0%Z /\
  exists pen verts,
    draw_text true demo_atlas 800 600 ["a"%char; "b"%char] 0 0 1 = Some (pen, verts) /\
    pen == (10 # 400) + (24 # 400) /\ length verts = 30%nat.
Proof.
  split; [lia|]; split; [discriminate|].
  destruct (draw_text_advance demo_atlas 800 600 ["a"%char; "b"%char] 0 0 1
              ltac:(lia) ltac:(discriminate)) as (pen & verts & H1 & H2 & H3 & _).
  exists pen, verts; split; [exact H1|]; split.
  - rewrite H2; reflexivity.
  - rewrite H3; reflexivity.
Defined.

End TextFacts.

Module InitFacts.
Import Init.
Local Open Scope string_scope.

(** C5: initialisation failures are not fatal in every script.  In
    [demo_gui.GameFullUI.__init__], with [glfw.init()] and the window
    succeeding but the vertex shader failing to compile and the program
    failing to link, the constructor prints the shader log and finishes:
    the object is built with [self.linked] false, and nothing stops it.  On
    the same platform outcome [window_gui] raises and [ui_debug_test]
    exits. *)
Theorem demo_gui_shader_failure_continues :
  let e := mkGlEnv true true false true false in
  demo_gui_init e = Running false ["vertex shader info log"] /\
  fatal (demo_gui_init e) = false /\
  fatal (window_gui_init e) = true /\
  fatal (ui_debug_test_init e) = true.
Proof.
  cbn zeta; repeat split.
Qed.

End InitFacts.

(* ================================================================== *)
(** * Further properties of window_gui.py and demo_gui.py *)

Module UIFacts.

Lemma clamp_one (x : Q) : 1 <= x -> clamp x 0 1 == 1.
Proof. intros; py_cases; lra. Qed.

Lemma clamp_zero (x : Q) : x <= 0 -> clamp x 0 1 == 0.
Proof. intros; py_cases; lra. Qed.

Lemma lerp_between (lo hi x g c : Q) :
  lo <= x <= hi -> lo <= g <= hi -> 0 <= c <= 1 -> lo <= lerp x g c <= hi.
Proof. unfold lerp; intros; nra. Qed.

(** [smoothstep] and [ease_out_cubic] map [0, 1] into [0, 1] and are
    non-decreasing there. *)
Theorem easing_monotone_range (a b : Q) :
  0 <= a -> a <= b -> b <= 1 ->
  0 <= smoothstep a /\ smoothstep a <= smoothstep b /\ smoothstep b <= 1 /\
  0 <= ease_out_cubic a /\ ease_out_cubic a <= ease_out_cubic b /\ ease_out_cubic b <= 1.
Proof.
  intros Ha Hab Hb; unfold smoothstep, ease_out_cubic.
  assert (Hs : b * b * (3 - 2 * b) - a * a * (3 - 2 * a)
               == (b - a) * (3 * (a + b) - 2 * (a * a + a * b + b * b))) by ring.
  assert (Hk : 0 <= 3 * (a + b) - 2 * (a * a + a * b + b * b)) by nra.
  assert (He : (1 - a) * (1 - a) * (1 - a) - (1 - b) * (1 - b) * (1 - b)
               == (b - a) * ((1 - a) * (1 - a) + (1 - a) * (1 - b) + (1 - b) * (1 - b))) by ring.
  assert (Hk2 : 0 <= (1 - a) * (1 - a) + (1 - a) * (1 - b) + (1 - b) * (1 - b)) by nra.
  assert (0 <= (b - a) * (3 * (a + b) - 2 * (a * a + a * b + b * b))) by nra.
  assert (0 <= (b - a) * ((1 - a) * (1 - a) + (1 - a) * (1 - b) + (1 - b) * (1 - b))) by nra.
  assert (S0 : 0 <= a * a * (3 - 2 * a)).
  { apply Qmult_le_0_compat; [nra|lra]. }
  assert (S1 : 1 - b * b * (3 - 2 * b) == (1 - b) * (1 - b) * (1 + 2 * b)) by ring.
  assert (S2 : 0 <= (1 - b) * (1 - b) * (1 + 2 * b)).
  { apply Qmult_le_0_compat; [nra|lra]. }
  assert (E0 : (1 - a) * (1 - a) * (1 - a) <= 1).
  { assert (0 <= 1 - a <= 1) by lra.
    assert ((1 - a) * (1 - a) <= 1) by nra. nra. }
  assert (E1 : 0 <= (1 - b) * (1 - b) * (1 - b)).
  { apply Qmult_le_0_compat; [nra|lra]. }
  repeat split; lra.
Qed.

Lemma easing_monotone_range_witness :
  (0 <= 1 # 4 /\ (1 # 4) <= 1 # 2 /\ (1 # 2) <= 1) /\
  smoothstep (1 # 4) <= smoothstep (1 # 2).
Proof.
  assert (H1 : 0 <= 1 # 4) by (vm_compute; discriminate).
  assert (H2 : (1 # 4) <= 1 # 2) by (vm_compute; discriminate).
  assert (H3 : (1 # 2) <= 1) by (vm_compute; discriminate).
  split; [split; [exact H1|split; [exact H2|exact H3]]|].
  exact (proj1 (proj2 (easing_monotone_range (1 # 4) (1 # 2) H1 H2 H3))).
Defined.


(** A cursor inside a [w] x [h] window maps into the NDC square
    [-1, 1] x [-1, 1], the window's left edge to [-1], its top edge to
    [1] (the y axis is flipped). *)
Theorem window_coords_to_ndc_range (w h : Z) (mx my : Q) :
  (0 < w)%Z -> (0 < h)%Z -> 0 <= mx <= inject_Z w -> 0 <= my <= inject_Z h ->
  exists nx ny, window_coords_to_ndc w h mx my = Some (nx, ny) /\
    -1 <= nx <= 1 /\ -1 <= ny <= 1 /\
    (mx == 0 -> nx == -1) /\ (my == 0 -> ny == 1).
Proof.
  intros Hw Hh Hmx Hmy; unfold window_coords_to_ndc.
  destruct (Z.eqb_spec w 0); [lia|]. destruct (Z.eqb_spec h 0); [lia|].
  assert (HW : 0 < inject_Z w) by (change (inject_Z 0 < inject_Z w); rewrite <- Zlt_Qlt; exact Hw).
  assert (HH : 0 < inject_Z h) by (change (inject_Z 0 < inject_Z h); rewrite <- Zlt_Qlt; exact Hh).
  assert (A1 : 0 <= mx / inject_Z w) by (apply Qle_shift_div_l; lra).
  assert (A2 : mx / inject_Z w <= 1) by (apply Qle_shift_div_r; lra).
  assert (B1 : 0 <= my / inject_Z h) by (apply Qle_shift_div_l; lra).
  assert (B2 : my / inject_Z h <= 1) by (apply Qle_shift_div_r; lra).
  eexists _, _; split; [reflexivity|].
  repeat split; try lra.
  - intros E; rewrite E; unfold Qdiv; ring.
  - intros E; rewrite E; unfold Qdiv; ring.
Qed.

Lemma window_coords_to_ndc_range_witness :
  ((0 < 1280)%Z /\ (0 < 720)%Z /\ 0 <= 640 <= inject_Z 1280 /\ 0 <= 0 <= inject_Z 720) /\
  exists nx ny, window_coords_to_ndc 1280 720 640 0 = Some (nx, ny) /\ nx == 0 /\ ny == 1.
Proof.
  assert (H1 : (0 < 1280)%Z) by lia. assert (H2 : (0 < 720)%Z) by lia.
  assert (H3 : 0 <= 640 <= inject_Z 1280) by (split; vm_compute; discriminate).
  assert (H4 : 0 <= 0 <= inject_Z 720) by (split; vm_compute; discriminate).
  destruct (window_coords_to_ndc_range 1280 720 640 0 H1 H2 H3 H4)
    as (nx & ny & E & _ & _ & _ & Hy).
  split; [exact (conj H1 (conj H2 (conj H3 H4)))|].
  exists nx, ny; split; [exact E|].
  split; [|apply Hy; reflexivity].
  unfold window_coords_to_ndc in E; vm_compute in E; injection E as <- <-; reflexivity.
Defined.

(** [draw_rect(cx, cy, w, h, ...)] draws exactly the rectangle the
    [contains] test of a button or slider with the same [cx, cy, w, h]
    accepts: every vertex of its quad passes [contains], and the four
    corners of that rectangle are vertices. *)
Theorem draw_rect_matches_contains (cx cy w h alpha : Q) :
  0 <= w -> 0 <= h ->
  Forall (fun p => rect_contains cx cy w h (fst p) (snd p) = true)
         (vertex_xy (draw_rect_quad cx cy w h alpha)) /\
  In (cx - w / 2, cy - h / 2) (vertex_xy (draw_rect_quad cx cy w h alpha)) /\
  In (cx + w / 2, cy - h / 2) (vertex_xy (draw_rect_quad cx cy w h alpha)) /\
  In (cx + w / 2, cy + h / 2) (vertex_xy (draw_rect_quad cx cy w h alpha)) /\
  In (cx - w / 2, cy + h / 2) (vertex_xy (draw_rect_quad cx cy w h alpha)).
Proof.
  intros Hw Hh.
  assert (Hw2 : 0 <= w / 2) by (apply Qle_shift_div_l; lra).
  assert (Hh2 : 0 <= h / 2) by (apply Qle_shift_div_l; lra).
  assert (Hin : forall a b, cx - w / 2 <= a <= cx + w / 2 -> cy - h / 2 <= b <= cy + h / 2 ->
                rect_contains cx cy w h a b = true).
  { intros a b [] []; unfold rect_contains.
    repeat (apply andb_true_intro; split); apply Qle_bool_iff; assumption. }
  split.
  - cbn [draw_rect_quad vertex_xy].
    repeat constructor; cbn [fst snd]; apply Hin; lra.
  - cbn [draw_rect_quad vertex_xy In]; tauto.
Qed.

Lemma draw_rect_matches_contains_witness :
  (0 <= 0.6 /\ 0 <= 0.18) /\
  In (0.0 - 0.6 / 2, 0.18 - 0.18 / 2) (vertex_xy (draw_rect_quad 0.0 0.18 0.6 0.18 1)).
Proof.
  assert (H1 : 0 <= 0.6) by (vm_compute; discriminate).
  assert (H2 : 0 <= 0.18) by (vm_compute; discriminate).
  split; [split; assumption|].
  exact (proj1 (proj2 (draw_rect_matches_contains 0.0 0.18 0.6 0.18 1 H1 H2))).
Defined.

(** A frame with [dt >= 1/8] s sets [pause_alpha] and [options_slide]
    exactly to their targets, and with [dt >= 1/6] s also [home_alpha]
    and [menu_alpha]: the clamped rate reaches 1. *)
Theorem transitions_snap (dt : Q) (f : Flags) (t : Trans) :
  (1 # 8) <= dt ->
  let t' := transitions dt f t in
  pause_alpha t' == (if pause_menu_open f then 1 else 0) /\
  options_slide t' == (if show_options f then 0 else -0.6) /\
  ((1 # 6) <= dt ->
   home_alpha t' == (if String.eqb (scene f) "home" then 1 else 0) /\
   menu_alpha t' == (if String.eqb (scene f) "menu" then 1 else 0)).
Proof.
  intros Hdt; cbn zeta; cbn [transitions home_alpha menu_alpha pause_alpha options_slide].
  assert (H8 : clamp (dt * 8.0) 0 1 == 1) by (apply clamp_one; lra).
  unfold lerp; rewrite H8.
  split; [ring|]. split; [ring|].
  intros H6. assert (H6' : clamp (dt * 6.0) 0 1 == 1) by (apply clamp_one; lra).
  rewrite H6'; split; ring.
Qed.

Lemma transitions_snap_witness :
  (1 # 8) <= 1 /\
  pause_alpha (transitions 1 (flags (init_ui 1)) (trans (init_ui 1))) == 0.
Proof.
  assert (H : (1 # 8) <= 1) by (vm_compute; discriminate).
  split; [exact H|].
  exact (proj1 (transitions_snap 1 (flags (init_ui 1)) (trans (init_ui 1)) H)).
Defined.

(** A frame with [dt <= 0] (the first frame, where [dt = 0.0], or a clock
    that went back) leaves the four transition values unchanged. *)
Theorem transitions_freeze (dt : Q) (f : Flags) (t : Trans) :
  dt <= 0 ->
  let t' := transitions dt f t in
  home_alpha t' == home_alpha t /\ menu_alpha t' == menu_alpha t /\
  pause_alpha t' == pause_alpha t /\ options_slide t' == options_slide t.
Proof.
  intros Hdt; cbn zeta; cbn [transitions home_alpha menu_alpha pause_alpha options_slide].
  assert (H6 : clamp (dt * 6.0) 0 1 == 0) by (apply clamp_zero; lra).
  assert (H8 : clamp (dt * 8.0) 0 1 == 0) by (apply clamp_zero; lra).
  unfold lerp; rewrite H6, H8; repeat split; ring.
Qed.

Lemma transitions_freeze_witness :
  0 <= 0 /\
  options_slide (transitions 0 (flags (init_ui 1)) (trans (init_ui 1))) == -0.6.
Proof.
  assert (H : 0 <= 0) by (vm_compute; discriminate).
  split; [exact H|].
  exact (proj2 (proj2 (proj2 (transitions_freeze 0 (flags (init_ui 1)) (trans (init_ui 1)) H)))).
Defined.

(** While the left button is held, a visible slider being dragged follows
    the cursor linearly along its track and stays pinned at [minv] left of
    the track and at [maxv] right of it. *)
Theorem drag_slider_follows (s : FocusableSlider) (nx : Q) :
  0 < s_w s -> s_visible s = true -> dragging s = true ->
  let left := s_cx s - s_w s / 2 in
  let right := s_cx s + s_w s / 2 in
  (nx <= left -> value (drag_slider nx s) == minv s) /\
  (right <= nx -> value (drag_slider nx s) == maxv s) /\
  (left <= nx <= right ->
   value (drag_slider nx s) == minv s + (nx - left) / s_w s * (maxv s - minv s)).
Proof.
  intros Hw Hv Hd; cbn zeta.
  unfold drag_slider; rewrite Hv, Hd; cbn [andb value set_from_norm].
  assert (E : s_cx s + s_w s / 2 - (s_cx s - s_w s / 2) == s_w s) by field.
  assert (Hp : 0 < s_cx s + s_w s / 2 - (s_cx s - s_w s / 2)) by (rewrite E; exact Hw).
  split; [|split].
  - intros H. rewrite (clamp_zero _); [ring|].
    apply Qle_shift_div_r; [exact Hp|]. lra.
  - intros H. rewrite (clamp_one _); [ring|].
    apply Qle_shift_div_l; [exact Hp|]. lra.
  - intros [H1 H2]. rewrite (clamp_id _).
    + field. split; lra.
    + split; [apply Qle_shift_div_l; [exact Hp|lra]|].
      apply Qle_shift_div_r; [exact Hp|]. lra.
Qed.

Lemma drag_slider_follows_witness :
  0 < s_w (set_dragging init_s_scale true) /\
  s_visible (set_dragging init_s_scale true) = true /\
  dragging (set_dragging init_s_scale true) = true /\
  value (drag_slider 1 (set_dragging init_s_scale true)) == 3.0.
Proof.
  assert (H1 : 0 < s_w (set_dragging init_s_scale true)) by (vm_compute; reflexivity).
  assert (H2 : s_visible (set_dragging init_s_scale true) = true) by reflexivity.
  assert (H3 : dragging (set_dragging init_s_scale true) = true) by reflexivity.
  split; [exact H1|]; split; [exact H2|]; split; [exact H3|].
  apply (proj1 (proj2 (drag_slider_follows (set_dragging init_s_scale true) 1 H1 H2 H3))).
  vm_compute; discriminate.
Defined.

End UIFacts.

Module UIInvariants.
Import UIFacts.

(* ------------------------------------------------------------------ *)
(** ** Updates of the stored sliders *)

(** What every in-place update of a slider in the code does: keep its
    range and geometry, and either keep [value] or set it through
    [set_from_norm]. *)
Definition slider_change (f : FocusableSlider -> FocusableSlider) : Prop :=
  forall s, minv (f s) = minv s /\ maxv (f s) = maxv s /\
            s_cx (f s) = s_cx s /\ s_w (f s) = s_w s /\
            (value (f s) = value s \/
             exists t, value (f s) = minv s + clamp t 0 1 * (maxv s - minv s)).

Lemma sc_focused (v : bool) : slider_change (fun s => set_s_focused s v).
Proof. intros s; repeat split; left; reflexivity. Qed.

Lemma sc_dragging (v : bool) : slider_change (fun s => set_dragging s v).
Proof. intros s; repeat split; left; reflexivity. Qed.

Lemma sc_toggle : slider_change (fun s => set_dragging s (negb (dragging s))).
Proof. intros s; repeat split; left; reflexivity. Qed.

Lemma sc_click : slider_change (fun s => set_s_focused (set_dragging s true) true).
Proof. intros s; repeat split; left; reflexivity. Qed.

Lemma sc_adjust (d : Q) : slider_change (fun s => set_from_norm s (normalized s + d)).
Proof. intros s; repeat split; right; eexists; reflexivity. Qed.

Lemma sc_drag (nx : Q) : slider_change (drag_slider nx).
Proof.
  intros s; unfold drag_slider.
  destruct (s_visible s && dragging s); [|repeat split; left; reflexivity].
  repeat split; right; eexists; reflexivity.
Qed.

Section StoreInvariant.
Variable SP : Store -> Prop.
Hypothesis SP_update : forall r fb fs st, slider_change fs -> SP st -> SP (store_update r fb fs st).

Lemma mark_focused_SP (l : list Ref) (i idx : Z) (st : Store) :
  SP st -> SP (snd (mark_focused i idx l st)).
Proof.
  revert i st; induction l as [|r l IH]; intros i st H; [exact H|].
  cbn [mark_focused].
  pose proof (IH (i + 1)%Z (store_update r (fun b => set_focused b (Z.eqb i idx))
               (fun s => set_s_focused s (Z.eqb i idx)) st)) as IH'.
  destruct (mark_focused _ _ _ _) as [l'' st2]; apply IH'.
  apply SP_update; [apply sc_focused|exact H].
Qed.

Lemma move_focus_SP (d : Z) (t : Q) (u : UI) : SP (store u) -> SP (store (move_focus d t u)).
Proof.
  intros H; unfold move_focus.
  destruct (focus_list (focus (build_focus_list u))) as [|r l]; [exact H|].
  destruct (Qlt_le_dec _ _); [exact H|].
  pose proof (mark_focused_SP (r :: l) 0
    (Z.modulo (focus_index (focus (build_focus_list u)) + d) (Z.of_nat (length (r :: l))))
    (store (build_focus_list u)) H) as Hm.
  destruct (mark_focused _ _ _ _); exact Hm.
Qed.

Lemma activate_focused_SP (u : UI) : SP (store u) -> SP (store (activate_focused u)).
Proof.
  intros H; unfold activate_focused.
  destruct (focused_ref _) as [r|]; [|exact H].
  destruct (deref _ r); [rewrite run_action_store; exact H|].
  apply SP_update; [apply sc_toggle|exact H].
Qed.

Lemma adjust_slider_SP (d : Q) (u : UI) : SP (store u) -> SP (store (adjust_slider d u)).
Proof.
  intros H; unfold adjust_slider.
  destruct (focused_ref _) as [r|]; [|exact H].
  destruct (deref _ r); [exact H|].
  apply SP_update; [apply sc_adjust|exact H].
Qed.

Lemma poll_gamepad_SP (p : bool) (ax : list Q) (bs : list bool) (now : Q) (u : UI) :
  SP (store u) -> SP (store (poll_gamepad p ax bs now u)).
Proof.
  intros H.
  assert (H0 : SP (store (if p then set_joy_present u else u))) by (destruct p; exact H).
  unfold poll_gamepad.
  set (u0 := if p then set_joy_present u else u) in *.
  destruct (negb _); [exact H0|].
  assert (H1 : SP (store (poll_axes ax now u0))).
  { unfold poll_axes. destruct ax as [|a ax']; [exact H0|].
    destruct (_ || _); [|exact H0].
    destruct (Qlt_le_dec gamepad_nav_repeat _); [|exact H0].
    unfold set_gamepad_nav_last; cbn [store set_focus].
    repeat match goal with
           | |- context [if Qlt_le_dec ?a ?b then _ else _] => destruct (Qlt_le_dec a b)
           end;
    auto using move_focus_SP, adjust_slider_SP. }
  destruct bs as [|[|] bs']; try exact H1.
  destruct (Qlt_le_dec _ _); [|exact H1].
  apply (activate_focused_SP _ H1).
Qed.

Lemma step_SP (u : UI) (e : Event) : SP (store u) -> SP (store (step u e)).
Proof.
  intros H; destruct e as [k a t|b nx ny|now p ax bs|m nx|]; unfold step.
  - unfold on_key; destruct a; try exact H.
    destruct k; cbv beta iota; try (destruct (String.eqb _ _));
      auto using move_focus_SP, adjust_slider_SP, activate_focused_SP.
  - unfold on_mouse.
    destruct (negb _); [exact H|].
    destruct (_ || _).
    + destruct (show_options (flags u)).
      * destruct (first_hit _ _ _ _) as [r|]; [|exact H].
        apply SP_update; [apply sc_click|exact H].
      * destruct (first_hit _ _ _ _) as [r|]; [|exact H].
        unfold click_button; destruct (deref _ r); [rewrite run_action_store|]; exact H.
    + destruct (String.eqb _ _); [|exact H].
      destruct (if pause_menu_open (flags u) then _ else None) as [r|].
      * unfold click_button; destruct (deref _ r); [rewrite run_action_store|]; exact H.
      * destruct (rect_contains _ _ _ _ _ _); exact H.
  - unfold frame_begin; cbn [store set_trans].
    apply poll_gamepad_SP; exact H.
  - unfold frame_drag; cbn [store set_store].
    destruct m; (apply SP_update; [apply sc_drag || apply sc_dragging|]);
      (apply SP_update; [apply sc_drag || apply sc_dragging|exact H]).
  - exact H.
Qed.

Lemma reachable_SP (u : UI) : SP init_store -> reachable u -> SP (store u).
Proof.
  intros Hi Hr; induction Hr as [t0|u e Hr IH|u a Hr IH].
  - exact Hi.
  - apply step_SP, IH.
  - rewrite run_action_store; exact IH.
Qed.
End StoreInvariant.

(** A slider with range [lo, hi] and geometry [cx, w] whose value lies in
    its range. *)
Definition slider_in (lo hi cx0 w0 : Q) (s : FocusableSlider) : Prop :=
  minv s = lo /\ maxv s = hi /\ s_cx s = cx0 /\ s_w s = w0 /\ lo <= value s <= hi.

Definition sliders_ok (st : Store) : Prop :=
  slider_in 0.2 3.0 0.0 0.7 (s_scale st) /\ slider_in 0.1 3.0 0.0 0.7 (s_speed st).

Lemma slider_change_in (f : FocusableSlider -> FocusableSlider) (lo hi cx0 w0 : Q)
    (s : FocusableSlider) :
  slider_change f -> lo < hi -> slider_in lo hi cx0 w0 s -> slider_in lo hi cx0 w0 (f s).
Proof.
  intros Hf Hlt (H1 & H2 & H3 & H4 & H5).
  destruct (Hf s) as (E1 & E2 & E3 & E4 & [E5|[t E5]]).
  - unfold slider_in; rewrite E1, E2, E3, E4, E5; auto.
  - unfold slider_in; rewrite E1, E2, E3, E4, E5, H1, H2.
    repeat split; try assumption;
    pose proof (clamp_bounds t); set (c := clamp t 0 1) in *; nra.
Qed.

Lemma sliders_ok_update (r : Ref) fb fs (st : Store) :
  slider_change fs -> sliders_ok st -> sliders_ok (store_update r fb fs st).
Proof.
  intros Hf [Ha Hb].
  assert (L1 : 0.2 < 3.0) by (vm_compute; reflexivity).
  assert (L2 : 0.1 < 3.0) by (vm_compute; reflexivity).
  destruct r; unfold sliders_ok; cbn [store_update s_scale s_speed]; split;
    try assumption; apply slider_change_in; assumption.
Qed.

Lemma reachable_sliders_ok (u : UI) : reachable u -> sliders_ok (store u).
Proof.
  apply reachable_SP; [exact sliders_ok_update|].
  unfold sliders_ok, slider_in; cbn; repeat split; vm_compute; try reflexivity; discriminate.
Qed.

Lemma slider_in_view (lo hi cx0 w0 : Q) (s : FocusableSlider) :
  lo < hi -> 0 <= w0 -> slider_in lo hi cx0 w0 s ->
  0 <= normalized s <= 1 /\
  s_cx s - s_w s / 2 <= knob_x s <= s_cx s + s_w s / 2.
Proof.
  intros Hlt Hw (H1 & H2 & H3 & H4 & H5).
  assert (Hn : 0 <= normalized s <= 1).
  { unfold normalized; rewrite H1, H2.
    split; [apply Qle_shift_div_l; lra|apply Qle_shift_div_r; lra]. }
  split; [exact Hn|].
  unfold knob_x; rewrite H4.
  assert (E : s_cx s + w0 / 2 - (s_cx s - w0 / 2) == w0) by field.
  assert (0 <= w0 / 2) by (apply Qle_shift_div_l; lra).
  set (n := normalized s) in *.
  split; nra.
Qed.

(** In every reachable state the values of the two option sliders stay in
    their ranges ([0.2, 3.0] for "Triangle scale", whose value is the
    [scale] of [tri_model], and [0.1, 3.0] for "Triangle speed"), their
    [normalized()] in [0, 1], and the knob the options panel draws at
    [kx = left + tnorm * (right - left)] lies on the slider's track. *)
Theorem sliders_in_range (u : UI) :
  reachable u ->
  let sc := s_scale (store u) in
  let sp := s_speed (store u) in
  0.2 <= value sc <= 3.0 /\ 0.1 <= value sp <= 3.0 /\
  0 <= normalized sc <= 1 /\ 0 <= normalized sp <= 1 /\
  s_cx sc - s_w sc / 2 <= knob_x sc <= s_cx sc + s_w sc / 2 /\
  s_cx sp - s_w sp / 2 <= knob_x sp <= s_cx sp + s_w sp / 2.
Proof.
  intros Hr; cbn zeta.
  destruct (reachable_sliders_ok u Hr) as [Ha Hb].
  assert (L1 : 0.2 < 3.0) by (vm_compute; reflexivity).
  assert (L2 : 0.1 < 3.0) by (vm_compute; reflexivity).
  assert (L3 : 0 <= 0.7) by (vm_compute; discriminate).
  destruct (slider_in_view _ _ _ _ _ L1 L3 Ha) as [Na Ka].
  destruct (slider_in_view _ _ _ _ _ L2 L3 Hb) as [Nb Kb].
  destruct Ha as (_ & _ & _ & _ & Va). destruct Hb as (_ & _ & _ & _ & Vb).
  repeat split; try apply Va; try apply Vb; try apply Na; try apply Nb;
    try apply Ka; apply Kb.
Qed.

(** Open the options, nudge the focused slider right, and drag it past
    the right end of its track. *)
Definition slider_events : list Event :=
  [EvKey KEY_O PRESS 1; EvKey KEY_RIGHT PRESS 2;
   EvMouse MOUSE_BUTTON_LEFT 0 0.1; EvFrameDrag true 1].

Lemma sliders_in_range_witness :
  reachable (run_events (init_ui 1) slider_events) /\
  value (s_scale (store (run_events (init_ui 1) slider_events))) <= 3.0.
Proof.
  assert (H : reachable (run_events (init_ui 1) slider_events))
    by (apply reachable_run_events, reach_init).
  split; [exact H|].
  exact (proj2 (proj1 (sliders_in_range _ H))).
Defined.

(* ------------------------------------------------------------------ *)
(** ** Transition values *)

Lemma easing_unit (x : Q) :
  0 <= x <= 1 -> (0 <= smoothstep x <= 1) /\ (0 <= ease_out_cubic x <= 1).
Proof.
  intros [H0 H1]; unfold smoothstep, ease_out_cubic.
  assert (S0 : 0 <= x * x * (3 - 2 * x)) by (apply Qmult_le_0_compat; [nra|lra]).
  assert (S1 : 1 - x * x * (3 - 2 * x) == (1 - x) * (1 - x) * (1 + 2 * x)) by ring.
  assert (S2 : 0 <= (1 - x) * (1 - x) * (1 + 2 * x)) by (apply Qmult_le_0_compat; [nra|lra]).
  assert (E0 : (1 - x) * (1 - x) * (1 - x) <= 1).
  { assert ((1 - x) * (1 - x) <= 1) by nra. nra. }
  assert (E1 : 0 <= (1 - x) * (1 - x) * (1 - x)) by (apply Qmult_le_0_compat; [nra|lra]).
  repeat split; lra.
Qed.

Definition trans_ok (t : Trans) : Prop :=
  0 <= home_alpha t <= 1 /\ 0 <= menu_alpha t <= 1 /\ 0 <= pause_alpha t <= 1 /\
  -0.6 <= options_slide t <= 0.

Lemma move_focus_trans (d : Z) (t : Q) (u : UI) : trans (move_focus d t u) = trans u.
Proof.
  unfold move_focus.
  destruct (focus_list (focus (build_focus_list u))); [reflexivity|].
  destruct (Qlt_le_dec _ _); [reflexivity|].
  destruct (mark_focused _ _ _ _); reflexivity.
Qed.

Lemma run_action_trans (a : ButtonAction) (u : UI) : trans (run_action a u) = trans u.
Proof. destruct a; reflexivity. Qed.

Lemma activate_focused_trans (u : UI) : trans (activate_focused u) = trans u.
Proof.
  unfold activate_focused.
  destruct (focused_ref _) as [r|]; [|reflexivity].
  destruct (deref _ r); [rewrite run_action_trans|]; reflexivity.
Qed.

Lemma adjust_slider_trans (d : Q) (u : UI) : trans (adjust_slider d u) = trans u.
Proof.
  unfold adjust_slider.
  destruct (focused_ref _) as [r|]; [|reflexivity].
  destruct (deref _ r); reflexivity.
Qed.

Lemma poll_gamepad_trans (p : bool) (ax : list Q) (bs : list bool) (now : Q) (u : UI) :
  trans (poll_gamepad p ax bs now u) = trans u.
Proof.
  assert (H0 : trans (if p then set_joy_present u else u) = trans u) by (destruct p; reflexivity).
  unfold poll_gamepad.
  set (u0 := if p then set_joy_present u else u) in *.
  destruct (negb _); [exact H0|].
  assert (H1 : trans (poll_axes ax now u0) = trans u).
  { unfold poll_axes. destruct ax as [|a ax']; [exact H0|].
    destruct (_ || _); [|exact H0].
    destruct (Qlt_le_dec gamepad_nav_repeat _); [|exact H0].
    unfold set_gamepad_nav_last; cbn [trans set_focus].
    repeat match goal with
           | |- context [if Qlt_le_dec ?a ?b then _ else _] => destruct (Qlt_le_dec a b)
           end;
    rewrite ?move_focus_trans, ?adjust_slider_trans; exact H0. }
  destruct bs as [|[|] bs']; try exact H1.
  destruct (Qlt_le_dec _ _); [|exact H1].
  cbn [set_nav_last trans set_focus]. rewrite activate_focused_trans; exact H1.
Qed.

Lemma transitions_ok (dt : Q) (f : Flags) (t : Trans) :
  trans_ok t -> trans_ok (transitions dt f t).
Proof.
  intros (H1 & H2 & H3 & H4); unfold trans_ok;
    cbn [transitions home_alpha menu_alpha pause_alpha options_slide].
  repeat split;
    match goal with
    | |- context [lerp ?x ?g ?c] =>
        let Hc := fresh in pose proof (clamp_bounds (dt * 6.0)) as Hc;
        let Hd := fresh in pose proof (clamp_bounds (dt * 8.0)) as Hd;
        set (c6 := clamp (dt * 6.0) 0 1) in *; set (c8 := clamp (dt * 8.0) 0 1) in *
    end;
    first
      [ apply (lerp_between 0 1) | apply (lerp_between (-0.6) 0) ];
    try assumption; try (destruct (String.eqb _ _)); try (destruct (pause_menu_open f));
    try (destruct (show_options f)); lra.
Qed.

Lemma step_trans_ok (u : UI) (e : Event) : trans_ok (trans u) -> trans_ok (trans (step u e)).
Proof.
  intros H; destruct e as [k a t|b nx ny|now p ax bs|m nx|]; unfold step.
  - unfold on_key; destruct a; try exact H.
    destruct k; cbv beta iota; try (destruct (String.eqb _ _));
      rewrite ?move_focus_trans, ?adjust_slider_trans, ?activate_focused_trans;
      exact H.
  - unfold on_mouse.
    destruct (negb _); [exact H|].
    destruct (_ || _).
    + destruct (show_options (flags u)).
      * destruct (first_hit _ _ _ _) as [r|]; exact H.
      * destruct (first_hit _ _ _ _) as [r|]; [|exact H].
        unfold click_button; destruct (deref _ r); [rewrite run_action_trans|]; exact H.
    + destruct (String.eqb _ _); [|exact H].
      destruct (if pause_menu_open (flags u) then _ else None) as [r|].
      * unfold click_button; destruct (deref _ r); [rewrite run_action_trans|]; exact H.
      * destruct (rect_contains _ _ _ _ _ _); exact H.
  - unfold frame_begin; cbn [trans set_trans].
    apply transitions_ok.
    cbn [build_focus_list set_focus trans]. rewrite poll_gamepad_trans.
    destruct H as (H1 & H2 & H3 & H4); unfold trans_ok; cbn; auto.
  - exact H.
  - exact H.
Qed.

Lemma reachable_trans_ok (u : UI) : reachable u -> trans_ok (trans u).
Proof.
  intros Hr; induction Hr as [t0|u e Hr IH|u a Hr IH].
  - unfold trans_ok; cbn; repeat split; vm_compute; discriminate.
  - apply step_trans_ok, IH.
  - rewrite run_action_trans; exact IH.
Qed.

(** In every reachable state [home_alpha], [menu_alpha] and [pause_alpha]
    lie in [0, 1] and [options_slide] in [-0.6, 0].  So the home title
    drawn at [lerp(0.82, 0.62, smoothstep(home_alpha))] stays between
    y = 0.62 and y = 0.82, and the options panel drawn at [panel_y] stays
    between y = -0.48 and y = 0.04. *)
Theorem transitions_in_range (u : UI) :
  reachable u ->
  let t := trans u in
  0 <= home_alpha t <= 1 /\ 0 <= menu_alpha t <= 1 /\ 0 <= pause_alpha t <= 1 /\
  -0.6 <= options_slide t <= 0 /\
  0.62 <= title_y (home_alpha t) <= 0.82 /\
  -0.48 <= panel_y (options_slide t) <= 0.04.
Proof.
  intros Hr; cbn zeta.
  destruct (reachable_trans_ok u Hr) as (H1 & H2 & H3 & H4).
  assert (S : 0 <= smoothstep (home_alpha (trans u)) <= 1) by exact (proj1 (easing_unit _ H1)).
  assert (Ec : 0 <= ease_out_cubic (clamp ((options_slide (trans u) + 0.6) / 0.6) 0 1) <= 1)
    by exact (proj2 (easing_unit _ (clamp_bounds _))).

  split; [exact H1|]; split; [exact H2|]; split; [exact H3|]; split; [exact H4|].
  split.
  - unfold title_y, lerp. set (x := smoothstep _) in *. nra.
  - unfold panel_y, lerp. set (x := ease_out_cubic _) in *. nra.
Qed.

Definition frame_events : list Event :=
  [EvFrameBegin 2 false [] []; EvKey KEY_ENTER PRESS 2; EvFrameBegin 3 false [] [];
   EvKey KEY_ESCAPE PRESS 3; EvFrameBegin (7 # 2) false [] []].

Lemma transitions_in_range_witness :
  reachable (run_events (init_ui 1) frame_events) /\
  0 <= pause_alpha (trans (run_events (init_ui 1) frame_events)) <= 1.
Proof.
  assert (H : reachable (run_events (init_ui 1) frame_events))
    by (apply reachable_run_events, reach_init).
  split; [exact H|].
  exact (proj1 (proj2 (proj2 (transitions_in_range _ H)))).
Defined.

(* ------------------------------------------------------------------ *)
(** ** Sticky flags *)

(** Once [glfw.set_window_should_close(win, True)] has been called (by
    Escape outside a game, Q, or a Quit button), no later key, mouse,
    gamepad or frame event clears it. *)
Theorem close_request_sticky (u : UI) (es : list Event) :
  should_close (flags u) = true -> should_close (flags (run_events u es)) = true.
Proof.
  revert u; induction es as [|e es IH]; intros u H; [exact H|].
  apply IH.
  apply (step_P (fun f => should_close f = true)); [| | |exact H].
  - intros a v Hv; destruct a; cbn; try reflexivity; exact Hv.
  - intros v Hv; exact Hv.
  - intros v Hv; reflexivity.
Qed.

Lemma close_request_sticky_witness :
  should_close (flags (on_key KEY_Q PRESS 1 (init_ui 1))) = true /\
  should_close (flags (run_events (on_key KEY_Q PRESS 1 (init_ui 1)) frame_events)) = true.
Proof.
  assert (H : should_close (flags (on_key KEY_Q PRESS 1 (init_ui 1))) = true) by reflexivity.
  split; [exact H|].
  exact (close_request_sticky _ frame_events H).
Defined.

Lemma build_focus_list_joy (u : UI) :
  joy_present (focus (build_focus_list u)) = joy_present (focus u).
Proof. reflexivity. Qed.

Lemma move_focus_joy (d : Z) (t : Q) (u : UI) :
  joy_present (focus (move_focus d t u)) = joy_present (focus u).
Proof.
  unfold move_focus.
  destruct (focus_list (focus (build_focus_list u))); [reflexivity|].
  destruct (Qlt_le_dec _ _); [reflexivity|].
  destruct (mark_focused _ _ _ _); reflexivity.
Qed.

Lemma activate_focused_joy (u : UI) :
  joy_present (focus (activate_focused u)) = joy_present (focus u).
Proof. rewrite activate_focused_focus; reflexivity. Qed.

Lemma adjust_slider_joy (d : Q) (u : UI) :
  joy_present (focus (adjust_slider d u)) = joy_present (focus u).
Proof. rewrite adjust_slider_focus; reflexivity. Qed.

Lemma step_joy (u : UI) (e : Event) :
  joy_present (focus u) = true -> joy_present (focus (step u e)) = true.
Proof.
  intros H; destruct e as [k a t|b nx ny|now p ax bs|m nx|]; unfold step.
  - unfold on_key; destruct a; try exact H.
    destruct k; cbv beta iota; try (destruct (String.eqb _ _));
      rewrite ?move_focus_joy, ?adjust_slider_joy, ?activate_focused_joy;
      try exact H; exact (eq_trans (f_equal joy_present (run_action_focus DoToggleOptions u)) H).
  - unfold on_mouse.
    destruct (negb _); [exact H|].
    destruct (_ || _).
    + destruct (show_options (flags u)).
      * destruct (first_hit _ _ _ _) as [r|]; exact H.
      * destruct (first_hit _ _ _ _) as [r|]; [|exact H].
        unfold click_button; destruct (deref _ r); [rewrite run_action_focus|]; exact H.
    + destruct (String.eqb _ _); [|exact H].
      destruct (if pause_menu_open (flags u) then _ else None) as [r|].
      * unfold click_button; destruct (deref _ r); [rewrite run_action_focus|]; exact H.
      * destruct (rect_contains _ _ _ _ _ _); exact H.
  - unfold frame_begin; cbn [focus set_trans build_focus_list set_focus joy_present].
    unfold poll_gamepad.
    assert (H0 : joy_present (focus (if p then set_joy_present
                   (set_trans u (mkTrans (home_alpha (trans u)) (menu_alpha (trans u))
                      (pause_alpha (trans u)) (options_slide (trans u)) now))
                 else set_trans u (mkTrans (home_alpha (trans u)) (menu_alpha (trans u))
                      (pause_alpha (trans u)) (options_slide (trans u)) now))) = true)
      by (destruct p; [reflexivity|exact H]).
    rewrite H0; cbn [negb].
    unfold poll_axes.
    destruct ax as [|a ax'];
      [|destruct (_ || _); [destruct (Qlt_le_dec gamepad_nav_repeat _)|]];
      repeat match goal with
             | |- context [if Qlt_le_dec ?a ?b then _ else _] => destruct (Qlt_le_dec a b)
             end;
      destruct bs as [|[|] bs'];
      repeat match goal with
             | |- context [if Qlt_le_dec ?a ?b then _ else _] => destruct (Qlt_le_dec a b)
             end;
      cbn [set_nav_last set_gamepad_nav_last set_focus focus joy_present];
      rewrite ?activate_focused_joy;
      cbn [set_gamepad_nav_last set_focus focus joy_present];
      rewrite ?move_focus_joy, ?adjust_slider_joy; exact H0.
  - exact H.
  - exact H.
Qed.

(** Once a gamepad poll has seen a joystick ([self.joy_present = True]), no
    later event resets [joy_present]: the code never sets it back to
    [False], also when the joystick is unplugged. *)
Theorem joy_present_sticky (u : UI) (es : list Event) :
  joy_present (focus u) = true -> joy_present (focus (run_events u es)) = true.
Proof.
  revert u; induction es as [|e es IH]; intros u H; [exact H|].
  apply IH, step_joy, H.
Qed.

Lemma joy_present_sticky_witness :
  joy_present (focus (frame_begin 2 true [] [] (init_ui 1))) = true /\
  joy_present (focus (run_events (frame_begin 2 true [] [] (init_ui 1))
                        [EvFrameBegin 3 false [] []])) = true.
Proof.
  assert (H : joy_present (focus (frame_begin 2 true [] [] (init_ui 1))) = true)
    by reflexivity.
  split; [exact H|].
  exact (joy_present_sticky _ _ H).
Defined.

(* ------------------------------------------------------------------ *)
(** ** Clicks on the in-game HUD *)

(** In a game with the pause menu closed, a click does something only when
    it is a left click inside the pause box [(-0.9, 0.85, 0.12, 0.08)],
    and then it opens the pause menu.  Any other click, in particular one
    on the drawn "Main Menu" box outside that pause box, leaves the whole
    state unchanged: [on_mouse] never calls [goto_menu] from the HUD. *)
Theorem hud_click (btn : Z) (nx ny : Q) (u : UI) :
  scene (flags u) = "playing"%string -> pause_menu_open (flags u) = false ->
  on_mouse btn nx ny u =
  (if Z.eqb btn MOUSE_BUTTON_LEFT && rect_contains (-0.9) 0.85 0.12 0.08 nx ny
   then _open_pause u else u).
Proof.
  intros Hs Hp; unfold on_mouse.
  destruct (Z.eqb btn MOUSE_BUTTON_LEFT); cbn [negb andb]; [|reflexivity].
  rewrite Hs, Hp; cbn.
  destruct (rect_contains _ _ _ _ _ _); [unfold _open_pause; rewrite Hs|]; reflexivity.
Qed.

Lemma hud_click_witness :
  scene (flags (start_game (init_ui 1))) = "playing"%string /\
  pause_menu_open (flags (start_game (init_ui 1))) = false /\
  on_mouse MOUSE_BUTTON_LEFT (-0.7) 0.85 (start_game (init_ui 1)) = start_game (init_ui 1).
Proof.
  assert (H1 : scene (flags (start_game (init_ui 1))) = "playing"%string) by reflexivity.
  assert (H2 : pause_menu_open (flags (start_game (init_ui 1))) = false) by reflexivity.
  split; [exact H1|]; split; [exact H2|].
  rewrite (hud_click MOUSE_BUTTON_LEFT (-0.7) 0.85 _ H1 H2). reflexivity.
Defined.

(* ------------------------------------------------------------------ *)
(** ** Navigation *)

Lemma move_focus_accepted (d : Z) (t : Q) (u : UI) (r : Ref) (l : list Ref) :
  visible_controls (flags u) = r :: l ->
  nav_repeat_delay <= t - nav_last (focus u) ->
  flags (move_focus d t u) = flags u /\
  nav_last (focus (move_focus d t u)) = t /\
  focus_index (focus (move_focus d t u)) =
    Z.modulo (clampZ (focus_index (focus u)) 0 (Z.of_nat (length (r :: l)) - 1) + d)
             (Z.of_nat (length (r :: l))).
Proof.
  intros Hv Ht.
  split; [apply move_focus_flags|].
  unfold move_focus.
  cbn [build_focus_list set_focus focus focus_list focus_index nav_last].
  rewrite Hv.
  destruct (Qlt_le_dec _ _) as [Hlt|_]; [exfalso; lra|].
  destruct (mark_focused _ _ _ _); split; reflexivity.
Qed.

(** Two accepted moves by [delta] and then by [-delta] (each at least
    [nav_repeat_delay] = 0.25 s after the previous accepted move) bring the
    focus back to the control it was on: [Tab]/[Down] then [Up] returns to
    the same button. *)
Theorem move_focus_there_and_back (u : UI) (d : Z) (t1 t2 : Q) :
  visible_controls (flags u) <> [] ->
  nav_repeat_delay <= t1 - nav_last (focus u) ->
  nav_repeat_delay <= t2 - t1 ->
  focus_index (focus (move_focus (- d) t2 (move_focus d t1 u))) =
  focus_index (focus (build_focus_list u)).
Proof.
  intros Hne H1 H2.
  destruct (visible_controls (flags u)) as [|r l] eqn:Hv; [congruence|].
  destruct (move_focus_accepted d t1 u r l Hv H1) as (Ef & En & Ei).
  set (n := Z.of_nat (length (r :: l))) in *.
  assert (Hn : (0 < n)%Z) by (unfold n; cbn [length]; lia).
  assert (Hv' : visible_controls (flags (move_focus d t1 u)) = r :: l) by (rewrite Ef; exact Hv).
  assert (H2' : nav_repeat_delay <= t2 - nav_last (focus (move_focus d t1 u))) by (rewrite En; exact H2).
  destruct (move_focus_accepted (- d) t2 _ r l Hv' H2') as (_ & _ & Ei').
  rewrite Ei'. fold n. rewrite Ei.
  cbn [build_focus_list set_focus focus focus_index]. rewrite Hv. fold n.
  set (c := clampZ (focus_index (focus u)) 0 (n - 1)).
  assert (Hc : (0 <= c < n)%Z) by (unfold c, clampZ; lia).
  assert (Hm : (0 <= (c + d) mod n < n)%Z) by (apply Z.mod_pos_bound; lia).
  unfold clampZ at 1.
  rewrite (Z.min_r (n - 1) ((c + d) mod n)) by lia.
  rewrite (Z.max_r 0 ((c + d) mod n)) by lia.
  rewrite Zplus_mod_idemp_l. replace (c + d + - d)%Z with c by lia.
  apply Z.mod_small; exact Hc.
Qed.

Lemma move_focus_there_and_back_witness :
  visible_controls (flags (init_ui 1)) <> [] /\
  nav_repeat_delay <= 1 - nav_last (focus (init_ui 1)) /\
  nav_repeat_delay <= 2 - 1 /\
  focus_index (focus (move_focus (- 1) 2 (move_focus 1 1 (init_ui 1)))) = 0%Z.
Proof.
  assert (H0 : visible_controls (flags (init_ui 1)) <> []) by discriminate.
  assert (H1 : nav_repeat_delay <= 1 - nav_last (focus (init_ui 1))) by (vm_compute; discriminate).
  assert (H2 : nav_repeat_delay <= 2 - 1) by (vm_compute; discriminate).
  split; [exact H0|]; split; [exact H1|]; split; [exact H2|].
  exact (eq_trans (move_focus_there_and_back (init_ui 1) 1 1 2 H0 H1 H2) eq_refl).
Defined.

Lemma move_focus_nav_last (d : Z) (t : Q) (u : UI) :
  nav_last (focus (move_focus d t u)) = nav_last (focus u) \/
  nav_last (focus (move_focus d t u)) = t.
Proof.
  unfold move_focus.
  destruct (focus_list (focus (build_focus_list u))); [left; reflexivity|].
  destruct (Qlt_le_dec _ _); [left; reflexivity|].
  destruct (mark_focused _ _ _ _); right; reflexivity.
Qed.

Lemma adjust_slider_nav_last (dn : Q) (u : UI) :
  nav_last (focus (adjust_slider dn u)) = nav_last (focus u).
Proof. rewrite adjust_slider_focus; reflexivity. Qed.

Lemma poll_axes_nav_last (axes : list Q) (now : Q) (u : UI) :
  nav_last (focus (poll_axes axes now u)) = nav_last (focus u) \/
  nav_last (focus (poll_axes axes now u)) = now.
Proof.
  unfold poll_axes.
  destruct axes as [|a ax']; [left; reflexivity|].
  destruct (_ || _); [|left; reflexivity].
  destruct (Qlt_le_dec gamepad_nav_repeat _); [|left; reflexivity].
  cbn [set_gamepad_nav_last set_focus focus nav_last].
  repeat match goal with
         | |- context [if Qlt_le_dec ?a ?b then _ else _] => destruct (Qlt_le_dec a b)
         end;
    first [ apply move_focus_nav_last | left; apply adjust_slider_nav_last | left; reflexivity ].
Qed.

(** Gamepad button 0 (PRESS) within 0.2 s of the last accepted navigation
    or activation ([self.nav_last]) has no effect: the poll does exactly
    what it does with button 0 released, so a held button activates the
    focused control at most once every 0.2 s. *)
Theorem gamepad_button_debounce (present : bool) (axes : list Q) (bs : list bool)
    (now : Q) (u : UI) :
  now - nav_last (focus u) <= 1 # 5 ->
  poll_gamepad present axes (true :: bs) now u = poll_gamepad present axes [] now u.
Proof.
  intros H; unfold poll_gamepad.
  set (u0 := if present then set_joy_present u else u).
  assert (E0 : nav_last (focus u0) = nav_last (focus u)) by (unfold u0; destruct present; reflexivity).
  destruct (negb _); [reflexivity|].
  destruct (Qlt_le_dec _ _) as [Hlt|]; [|reflexivity].
  exfalso.
  destruct (poll_axes_nav_last axes now u0) as [E|E]; rewrite E in Hlt;
    [rewrite E0 in Hlt|]; lra.
Qed.

Lemma gamepad_button_debounce_witness :
  (1 # 10) - nav_last (focus (init_ui 1)) <= 1 # 5 /\
  poll_gamepad true [] [true] (1 # 10) (init_ui 1) =
  poll_gamepad true [] [] (1 # 10) (init_ui 1).
Proof.
  assert (H : (1 # 10) - nav_last (focus (init_ui 1)) <= 1 # 5) by (vm_compute; discriminate).
  split; [exact H|].
  exact (gamepad_button_debounce true [] [] (1 # 10) (init_ui 1) H).
Defined.

End UIInvariants.

(* ------------------------------------------------------------------ *)
(** ** The [self.glyphs] dict of [GlyphAtlas._build_atlas] *)

Module AtlasLookup.
Import Atlas AtlasFacts.
Local Open Scope Z_scope.

Lemma pack_loop_chars (W : Z) (l : list Img) (s : Pack) :
  map pch (placements (fold_left (pack_step W) l s)) = map pch (placements s) ++ map ich l.
Proof.
  revert s; induction l as [|g l IH]; intros s; cbn [fold_left map].
  - rewrite app_nil_r; reflexivity.
  - rewrite IH. unfold pack_step.
    destruct (Z.ltb W (x s + iw g)); cbn [placements];
      rewrite map_app, <- app_assoc; reflexivity.
Qed.

Lemma measure_chars (fs pd : Z) (chars : list (ascii * (Z * Z))) :
  map ich (map (measure fs pd) chars) = map fst chars.
Proof.
  induction chars as [|[ch [mw mh]] chars IH]; cbn; [reflexivity|].
  rewrite IH; reflexivity.
Qed.

Definition rect_of (p : Placement) : Z * Z * Z * Z := (px p, py p, pw p, ph p).

Lemma glyphs_fold_none (pls : list Placement) (d : list (ascii * (Z * Z * Z * Z))) (k : ascii) :
  dict_get k (fold_left (fun d p => dict_set (pch p) (px p, py p, pw p, ph p) d) pls d) = None <->
  dict_get k d = None /\ ~ In k (map pch pls).
Proof.
  revert d; induction pls as [|p pls IH]; intros d; cbn [fold_left map In].
  - tauto.
  - rewrite IH, dict_get_set.
    destruct (Ascii.eqb_spec k (pch p)) as [E|E].
    + split; [intros [H _]; discriminate|intros [_ H]; exfalso; apply H; left; auto].
    + split; [intros [H1 H2]; split; [exact H1|intros [H|H]; [apply E; auto|exact (H2 H)]]|].
      intros [H1 H2]; split; [exact H1|intros H; apply H2; right; exact H].
Qed.

Lemma glyphs_fold_other (pls : list Placement) (d : list (ascii * (Z * Z * Z * Z))) (k : ascii) :
  ~ In k (map pch pls) ->
  dict_get k (fold_left (fun d p => dict_set (pch p) (px p, py p, pw p, ph p) d) pls d) =
  dict_get k d.
Proof.
  revert d; induction pls as [|p pls IH]; intros d H; cbn [fold_left]; [reflexivity|].
  rewrite IH by (intros H'; apply H; right; exact H').
  rewrite dict_get_set.
  destruct (Ascii.eqb_spec k (pch p)) as [E|E]; [|reflexivity].
  exfalso; apply H; left; auto.
Qed.

Lemma glyphs_fold_some (pls : list Placement) (d : list (ascii * (Z * Z * Z * Z))) (p : Placement) :
  NoDup (map pch pls) -> In p pls ->
  dict_get (pch p) (fold_left (fun d p => dict_set (pch p) (px p, py p, pw p, ph p) d) pls d) =
  Some (rect_of p).
Proof.
  revert d; induction pls as [|q pls IH]; intros d Hnd Hin; [destruct Hin|].
  cbn [map] in Hnd; inversion Hnd as [|? ? Hq Hnd']; subst.
  cbn [fold_left].
  destruct Hin as [<-|Hin].
  - rewrite glyphs_fold_other by exact Hq.
    rewrite dict_get_set, Ascii.eqb_refl; reflexivity.
  - apply IH; assumption.
Qed.

(** [_build_atlas] pastes one placement per measured character, in the
    order of [chars]; [get_glyph(ch)] finds an entry exactly for the
    characters of [chars] ([None] for any other), and when the characters
    are distinct the entry of each one is the rectangle [(x, y, w, h)] of
    the placement where its image was pasted. *)
Theorem glyph_lookup (font_size padding : Z) (chars : list (ascii * (Z * Z)))
    (aw ah : Z) (pls : list Placement) glyphs :
  build_atlas font_size padding chars = (aw, ah, pls, glyphs) ->
  map pch pls = map fst chars /\
  (forall ch, dict_get ch glyphs = None <-> ~ In ch (map fst chars)) /\
  (NoDup (map fst chars) -> forall p, In p pls -> dict_get (pch p) glyphs = Some (rect_of p)).
Proof.
  intros H; unfold build_atlas, pack in H.
  injection H as Ha Hh Hp Hg.
  assert (Hc : map pch pls = map fst chars).
  { rewrite <- Hp, pack_loop_chars, measure_chars; reflexivity. }
  split; [exact Hc|]; split.
  - intros ch; rewrite <- Hg, glyphs_fold_none, Hp, Hc.
    cbn [dict_get]; tauto.
  - intros Hnd p Hin; rewrite <- Hg.
    apply glyphs_fold_some; [rewrite Hp, Hc; exact Hnd|rewrite Hp; exact Hin].
Qed.

Definition demo_chars : list (ascii * (Z * Z)) :=
  [("A"%char, (10, 14)); ("B"%char, (9, 14)); (" "%char, (0, 0))].

Lemma glyph_lookup_witness :
  let r := build_atlas 16 1 demo_chars in
  build_atlas 16 1 demo_chars = r /\
  dict_get "B"%char (snd r) = Some (12, 0, 11, 16).
Proof.
  cbv zeta.
  destruct (build_atlas 16 1 demo_chars) as [[[aw ah] pls] g] eqn:E.
  split; [reflexivity|].
  destruct (glyph_lookup 16 1 demo_chars aw ah pls g E) as (Hc & _ & Hs).
  assert (Hpls : pls = snd (fst (build_atlas 16 1 demo_chars))) by (rewrite E; reflexivity).
  assert (Hin : In (mkPlacement "B"%char 12 0 11 16) pls) by (rewrite Hpls; vm_compute; auto).
  exact (Hs ltac:(vm_compute; repeat constructor; cbv; intuition discriminate) _ Hin).
Defined.

End AtlasLookup.

(* ------------------------------------------------------------------ *)
(** ** demo_gui.py: scene flags, clicks and the text texture cache *)

Module DemoFacts.
Import Demo.

Lemma rect_contains_iff (cx cy w h nx ny : Q) :
  rect_contains cx cy w h nx ny = true <->
  (cx - w / 2 <= nx <= cx + w / 2) /\ (cy - h / 2 <= ny <= cy + h / 2).
Proof.
  unfold rect_contains; rewrite !andb_true_iff, !Qle_bool_iff; tauto.
Qed.

Lemma rect_contains_half (cx cy w h nx ny : Q) :
  rect_contains cx cy w h nx ny = true <->
  (cx - w * (1 # 2) <= nx <= cx + w * (1 # 2)) /\ (cy - h * (1 # 2) <= ny <= cy + h * (1 # 2)).
Proof. exact (rect_contains_iff cx cy w h nx ny). Qed.

(** Case split on every [Button.contains] test in the goal; the tests that
    cannot hold together are closed by arithmetic. *)
Ltac contains_cases :=
  repeat match goal with
         | |- context [contains ?b ?nx ?ny] =>
             let E := fresh "E" in
             destruct (contains b nx ny) eqn:E;
             unfold contains in E; cbn [x y w h] in E;
             [apply rect_contains_half in E
             |apply not_true_iff_false in E; rewrite rect_contains_half in E];
             cbn -[contains]
         end.

Definition demo_ok (s : State) : Prop :=
  paused s = pause_menu_open s /\
  (scene s = "menu"%string \/ scene s = "playing"%string) /\
  (paused s = true -> scene s = "playing"%string).

Lemma home_click_ok (nx ny : Q) (s : State) (b : Button) :
  demo_ok s -> demo_ok (home_click nx ny s b).
Proof.
  intros H; unfold home_click.
  destruct (contains b nx ny); [|exact H].
  destruct (String.eqb (label b) "Start"); [unfold demo_ok; cbn; split; [reflexivity|split; [right; reflexivity|discriminate]]|].
  destruct (String.eqb (label b) "Options"); [exact H|].
  destruct (String.eqb (label b) "Quit"); exact H.
Qed.

Lemma pause_click_ok (nx ny : Q) (s : State) (b : Button) :
  demo_ok s -> demo_ok (pause_click nx ny s b).
Proof.
  intros (H1 & H2 & H3); unfold pause_click.
  destruct (contains b nx ny); [|split; [|split]; assumption].
  destruct (String.eqb (label b) "Resume");
    [unfold demo_ok; cbn; split; [reflexivity|split; [exact H2|discriminate]]|].
  destruct (String.eqb (label b) "Options"); [split; [|split]; assumption|].
  destruct (String.eqb (label b) "Main Menu"); [|split; [|split]; assumption].
  unfold demo_ok; cbn; split; [reflexivity|split; [left; reflexivity|discriminate]].
Qed.

Lemma fold_click_ok (f : State -> Button -> State) (bs : list Button) (s : State) :
  (forall s b, demo_ok s -> demo_ok (f s b)) -> demo_ok s -> demo_ok (fold_left f bs s).
Proof.
  intros Hf; revert s; induction bs as [|b bs IH]; intros s H; [exact H|].
  apply IH, Hf, H.
Qed.

Lemma on_key_ok (k : Key) (a : KeyAct) (s : State) : demo_ok s -> demo_ok (on_key k a s).
Proof.
  destruct s as [sc pa so pm cl]; intros (H1 & H2 & H3); cbn in H1, H2, H3; subst pm.
  destruct a; try exact (conj eq_refl (conj H2 H3)).
  destruct H2 as [-> | ->]; destruct pa;
    try (exfalso; specialize (H3 eq_refl); discriminate);
    destruct k; unfold demo_ok; cbn;
    (split; [reflexivity|split; [first [left; reflexivity|right; reflexivity]
                                |intros Hx; first [reflexivity|discriminate Hx]]]).
Qed.

Lemma on_mouse_ok (b : Z) (a : KeyAct) (nx ny : Q) (s : State) :
  demo_ok s -> demo_ok (on_mouse b a nx ny s).
Proof.
  intros H; unfold on_mouse.
  destruct a; try exact H.
  destruct (negb _); [exact H|].
  destruct (String.eqb (scene s) "menu"); [apply fold_click_ok; [apply home_click_ok|exact H]|].
  destruct (_ && _); [apply fold_click_ok; [apply pause_click_ok|exact H]|exact H].
Qed.

(** In every state reachable by key presses and clicks, [paused] and
    [pause_menu_open] are equal, [scene] is "menu" or "playing", and the
    game is paused only while "playing".  So the pause buttons, drawn when
    [scene == "playing" and paused and pause_menu_open], are drawn exactly
    when [_on_mouse] makes them clickable. *)
Theorem demo_flags_invariant (s : State) :
  reachable s ->
  paused s = pause_menu_open s /\
  (scene s = "menu"%string \/ scene s = "playing"%string) /\
  (paused s = true -> scene s = "playing"%string).
Proof.
  intros Hr; induction Hr as [|k a s Hr IH|b a nx ny s Hr IH].
  - split; [reflexivity|split; [left; reflexivity|discriminate]].
  - exact (on_key_ok k a s IH).
  - exact (on_mouse_ok b a nx ny s IH).
Qed.

Lemma demo_flags_invariant_witness :
  reachable (on_key KEY_P PRESS (on_key KEY_ENTER PRESS init_state)) /\
  paused (on_key KEY_P PRESS (on_key KEY_ENTER PRESS init_state)) =
  pause_menu_open (on_key KEY_P PRESS (on_key KEY_ENTER PRESS init_state)).
Proof.
  assert (H : reachable (on_key KEY_P PRESS (on_key KEY_ENTER PRESS init_state)))
    by (apply reach_key, reach_key, reach_init).
  split; [exact H|].
  exact (proj1 (demo_flags_invariant _ H)).
Defined.

(** A left click in the main menu fires at most one button: the three home
    buttons do not overlap, so the loop over them acts like Start, else
    Options, else Quit, else nothing. *)
Theorem demo_menu_click (nx ny : Q) (s : State) :
  scene s = "menu"%string ->
  on_mouse MOUSE_BUTTON_LEFT PRESS nx ny s =
  if contains (mkButton 0 0.25 1.2 0.28 "Start") nx ny then start_game s
  else if contains (mkButton 0 (-0.05) 1.2 0.28 "Options") nx ny then set_show_options true s
  else if contains (mkButton 0 (-0.35) 1.2 0.28 "Quit") nx ny then quit_game s
  else s.
Proof.
  intros Hs; destruct s as [sc pa so pm cl]; cbn in Hs; subst sc.
  unfold on_mouse, home_click; cbn -[contains].
  contains_cases; try reflexivity; exfalso; lra.
Qed.

Lemma demo_menu_click_witness :
  scene init_state = "menu"%string /\
  on_mouse MOUSE_BUTTON_LEFT PRESS 0 0.25 init_state = start_game init_state.
Proof.
  assert (H : scene init_state = "menu"%string) by reflexivity.
  split; [exact H|].
  rewrite (demo_menu_click 0 0.25 init_state H).
  unfold contains; rewrite (proj2 (rect_contains_iff _ _ _ _ _ _)); [reflexivity|].
  cbn [x y w h]; split; split; vm_compute; discriminate.
Defined.

(** The pause buttons overlap: Resume spans y in [-0.025, 0.225], Options
    [-0.225, 0.025] and Main Menu [-0.425, -0.175].  A left click in the
    band shared by Resume and Options both resumes and opens the options;
    one in the band shared by Options and Main Menu opens the options and
    goes back to the menu. *)
Theorem demo_pause_overlap (nx ny : Q) (s : State) :
  scene s = "playing"%string -> pause_menu_open s = true ->
  - (1 # 2) <= nx <= 1 # 2 ->
  (- (1 # 40) <= ny <= 1 # 40 ->
   on_mouse MOUSE_BUTTON_LEFT PRESS nx ny s = mkState "playing" false true false (should_close s)) /\
  (- (9 # 40) <= ny <= - (7 # 40) ->
   on_mouse MOUSE_BUTTON_LEFT PRESS nx ny s = mkState "menu" false true false (should_close s)).
Proof.
  intros Hs Hp Hx; destruct s as [sc pa so pm cl]; cbn in Hs, Hp; subst sc pm.
  split; intros Hy; unfold on_mouse, pause_click; cbn -[contains];
    contains_cases; try reflexivity; exfalso; lra.
Qed.

Lemma demo_pause_overlap_witness :
  scene (mkState "playing" true false true false) = "playing"%string /\
  pause_menu_open (mkState "playing" true false true false) = true /\
  - (1 # 2) <= 0 <= 1 # 2 /\
  on_mouse MOUSE_BUTTON_LEFT PRESS 0 0 (mkState "playing" true false true false) =
  mkState "playing" false true false false.
Proof.
  assert (H1 : scene (mkState "playing" true false true false) = "playing"%string) by reflexivity.
  assert (H2 : pause_menu_open (mkState "playing" true false true false) = true) by reflexivity.
  assert (H3 : - (1 # 2) <= 0 <= 1 # 2) by (split; vm_compute; discriminate).
  split; [exact H1|]; split; [exact H2|]; split; [exact H3|].
  apply (proj1 (demo_pause_overlap 0 0 _ H1 H2 H3)).
  split; vm_compute; discriminate.
Defined.

(* The texture cache *)

Lemma lookup_none {V : Type} (k : string) (d : list (string * V)) :
  lookup k d = None <-> ~ In k (map fst d).
Proof.
  induction d as [|[k' v] d IH]; cbn; [tauto|].
  destruct (String.eqb_spec k k') as [E|E].
  - split; [discriminate|intros H; exfalso; apply H; left; auto].
  - rewrite IH; split; intros H H'; [destruct H' as [H'|H']; [apply E; auto|exact (H H')]|].
    apply H; right; exact H'.
Qed.

Lemma lookup_app_r {V : Type} (k : string) (d e : list (string * V)) :
  lookup k d = None -> lookup k (d ++ e) = lookup k e.
Proof.
  induction d as [|[k' v] d IH]; cbn; [reflexivity|].
  destruct (String.eqb k k'); [discriminate|exact IH].
Qed.

Lemma lookup_app_l {V : Type} (k : string) (d e : list (string * V)) (v : V) :
  lookup k d = Some v -> lookup k (d ++ e) = Some v.
Proof.
  induction d as [|[k' v'] d IH]; cbn; [discriminate|].
  destruct (String.eqb k k'); [exact (fun H => H)|exact IH].
Qed.

Lemma lookup_sizes (d : list (string * (Z * Z * Z))) (t : string) (v : Z * Z * Z) :
  Forall (fun e => snd (fst (snd e)) = 256%Z /\ snd (snd e) = 64%Z) d ->
  lookup t d = Some v -> snd (fst v) = 256%Z /\ snd v = 64%Z.
Proof.
  induction d as [|[k v'] d IH]; cbn; [discriminate|].
  intros Hf; inversion Hf as [|? ? Hv Hf']; subst.
  destruct (String.eqb t k); [intros [= <-]; exact Hv|exact (IH Hf')].
Qed.

(** The cache as [TextRenderer] keeps it: no text twice, the texture
    names [1, 2, ..., gen] in the order they were created, and every
    entry 256 by 64. *)
Definition cache_ok (tc : TexCache) : Prop :=
  NoDup (map fst (cache tc)) /\
  map (fun e => fst (fst (snd e))) (cache tc) = map Z.of_nat (seq 1 (length (cache tc))) /\
  gen tc = Z.of_nat (length (cache tc)) /\
  Forall (fun e => snd (fst (snd e)) = 256%Z /\ snd (snd e) = 64%Z) (cache tc).

Lemma create_texture_ok (t : string) (tc : TexCache) :
  cache_ok tc ->
  cache_ok (snd (create_texture t tc)) /\
  lookup t (cache (snd (create_texture t tc))) = Some (fst (create_texture t tc)).
Proof.
  intros (H1 & H2 & H3 & H4); unfold create_texture.
  destruct (lookup t (cache tc)) as [v|] eqn:E; cbn [fst snd].
  - split; [split; [|split; [|split]]; assumption|exact E].
  - split.
    + unfold cache_ok; cbn zeta; cbn [fst snd cache gen]. rewrite length_app; cbn [length].
      split; [|split; [|split]].
      * rewrite map_app; cbn [map fst].
        apply NoDup_app; [exact H1|constructor; [intros []|constructor]|].
        intros a Ha [<-|[]]. apply lookup_none in E; exact (E Ha).
      * rewrite map_app, H2, Nat.add_1_r, seq_S, map_app; cbn [map fst snd].
        f_equal; f_equal; rewrite H3; lia.
      * rewrite H3; lia.
      * apply Forall_app; split; [exact H4|constructor; [split; reflexivity|constructor]].
    + cbn zeta; cbn [fst snd cache]. rewrite lookup_app_r by exact E; cbn.
      rewrite String.eqb_refl; reflexivity.
Qed.

(** [TextRenderer.create_texture] called on the texts [texts], from an
    empty cache: afterwards every text has an entry, no text has two, the
    texture names handed out are [1, ..., gen] (one per distinct text, in
    order), every texture is 256 by 64 whatever the text, and calling
    [create_texture] again on a cached text returns its entry and changes
    nothing. *)
Theorem texture_cache (texts : list string) :
  let tc := create_all texts (mkTexCache [] 0) in
  cache_ok tc /\
  (forall t, In t texts -> exists tex,
      lookup t (cache tc) = Some (tex, 256%Z, 64%Z) /\
      create_texture t tc = ((tex, 256%Z, 64%Z), tc)).
Proof.
  cbv zeta.
  assert (G : forall tc, cache_ok tc ->
            cache_ok (create_all texts tc) /\
            forall t, In t texts \/ lookup t (cache tc) <> None ->
              lookup t (cache (create_all texts tc)) <> None).
  { induction texts as [|t0 ts IH]; intros tc Hok; cbn [create_all].
    - split; [exact Hok|intros t [[]|H]; exact H].
    - destruct (create_texture_ok t0 tc Hok) as [Hok' Hl].
      destruct (IH _ Hok') as [A B]; split; [exact A|].
      intros t Ht; apply B.
      destruct Ht as [[<-|Ht]|Ht]; [right; rewrite Hl; discriminate|left; exact Ht|].
      right. unfold create_texture in *.
      destruct (lookup t0 (cache tc)); [exact Ht|].
      cbn [snd cache]. destruct (lookup t (cache tc)) as [v|] eqn:E; [|congruence].
      rewrite (lookup_app_l _ _ _ v E); discriminate. }
  assert (Hok0 : cache_ok (mkTexCache [] 0)) by (repeat split; constructor).
  destruct (G _ Hok0) as [Hok Hin]; split; [exact Hok|].
  intros t Ht.
  destruct (lookup t (cache (create_all texts (mkTexCache [] 0)))) as [[[tex tw] th]|] eqn:E;
    [|exfalso; apply (Hin t (or_introl Ht)); exact E].
  destruct Hok as (_ & _ & _ & H4).
  destruct (lookup_sizes _ _ _ H4 E) as [Hw Hh]; cbn [fst snd] in Hw, Hh; subst tw th.
  exists tex; split; [reflexivity|].
  unfold create_texture; rewrite E; reflexivity.
Qed.

Lemma texture_cache_witness :
  In "Start"%string ["Start"%string; "Options"%string; "Start"%string] /\
  create_texture "Start"%string (create_all ["Start"%string; "Options"%string; "Start"%string] (mkTexCache [] 0)) =
  ((1%Z, 256%Z, 64%Z), create_all ["Start"%string; "Options"%string; "Start"%string] (mkTexCache [] 0)).
Proof.
  assert (H : In "Start"%string ["Start"%string; "Options"%string; "Start"%string]) by (left; reflexivity).
  split; [exact H|].
  destruct (proj2 (texture_cache ["Start"%string; "Options"%string; "Start"%string]) _ H) as [tex [E1 E2]].
  rewrite E2; vm_compute in E1; injection E1 as <-; reflexivity.
Defined.

(** [draw_text] on any text whose texture [create_texture] made draws a
    quad of [256/300 * scale] by [64/300 * scale] from [(x, y)]: the size
    does not depend on the length of the text. *)
Theorem draw_text_quad (text : string) (x0 y0 scale : Q) (tc : TexCache) :
  cache_ok tc ->
  snd (fst (draw_text text x0 y0 scale tc)) =
  let qw := inject_Z 256 / 300 * scale in
  let qh := inject_Z 64 / 300 * scale in
  [(x0, y0); (x0 + qw, y0); (x0 + qw, y0 + qh); (x0, y0 + qh)].
Proof.
  intros Hok.
  destruct (create_texture_ok text tc Hok) as [_ Hl].
  unfold draw_text.
  destruct (create_texture text tc) as [[[tex tw] th] tc'] eqn:E.
  cbn [fst snd] in Hl.
  destruct (Hok) as (_ & _ & _ & _).
  assert (Hok' : cache_ok tc') by (pose proof (proj1 (create_texture_ok text tc Hok)) as H; rewrite E in H; exact H).
  destruct Hok' as (_ & _ & _ & H4).
  destruct (lookup_sizes _ _ _ H4 Hl) as [Hw Hh]; cbn [fst snd] in Hw, Hh; subst tw th.
  reflexivity.
Qed.

Lemma draw_text_quad_witness :
  cache_ok (mkTexCache [] 0) /\
  snd (fst (draw_text "a much longer label than the texture" 0 0 1 (mkTexCache [] 0))) =
  [(0, 0); (0 + inject_Z 256 / 300 * 1, 0); (0 + inject_Z 256 / 300 * 1, 0 + inject_Z 64 / 300 * 1);
   (0, 0 + inject_Z 64 / 300 * 1)].
Proof.
  assert (H : cache_ok (mkTexCache [] 0)) by (repeat split; constructor).
  split; [exact H|].
  exact (draw_text_quad _ 0 0 1 _ H).
Defined.

End DemoFacts.
